(** * foo_dsp_speedy: the stream adapter of [dsp_speedy.cpp]

    A shallow embedding of the parameter record, its binary preset
    format, the float/fixed sample codec and the per-chunk operation of
    the [dsp_speedy] class, with the properties its specification states.

    Conventions.
    - A C++ [float] object is its four bytes in memory ([float32]); its
      numeric meaning is the IEEE-754 binary32 value of those bytes, as a
      [spec_float] of the standard library ([prec = 24], [emax = 128]).
    - [unsigned], [int] and [t_size] values are integers in [Z]; the
      conversions that can wrap are written out ([to_int], [to_unsigned]).
    - The Sonic/Speedy engine and the host's [audio_sample] type are not
      part of the component: they are interfaces ([Sonic], [Host]). *)

From Stdlib Require Import ZArith List Bool Lia Strings.Byte SpecFloat.
From Equations Require Import Equations.
Import ListNotations.

Local Open Scope Z_scope.

(* ===================================================================== *)
(** * Bytes and 32-bit floats *)
(* ===================================================================== *)

Module Bytes.

Definition to_Z (b : byte) : Z := Z.of_N (Byte.to_N b).

Definition of_Z (z : Z) : byte :=
  match Byte.of_N (Z.to_N (z mod 256)) with
  | Some b => b
  | None => x00
  end.

End Bytes.

(** A [float] as it lies in memory on the (little-endian) target:
    [fb0] is the byte at the lowest address. *)
Record float32 := mkF32 { fb0 : byte; fb1 : byte; fb2 : byte; fb3 : byte }.

Definition f32_bits (f : float32) : Z :=
  Bytes.to_Z (fb0 f) + 2 ^ 8 * Bytes.to_Z (fb1 f)
  + 2 ^ 16 * Bytes.to_Z (fb2 f) + 2 ^ 24 * Bytes.to_Z (fb3 f).

Definition f32_of_bits (z : Z) : float32 :=
  mkF32 (Bytes.of_Z z) (Bytes.of_Z (z / 2 ^ 8))
        (Bytes.of_Z (z / 2 ^ 16)) (Bytes.of_Z (z / 2 ^ 24)).

(** IEEE-754 binary32: 1 sign bit, 8 exponent bits, 23 fraction bits. *)
Definition b32_of_bits (x : Z) : spec_float :=
  let s := 2 ^ 31 <=? x in
  let e := (x / 2 ^ 23) mod 2 ^ 8 in
  let m := x mod 2 ^ 23 in
  if e =? 0 then
    match m with
    | Zpos p => S754_finite s p (-149)
    | _ => S754_zero s
    end
  else if e =? 255 then
    match m with
    | Z0 => S754_infinity s
    | _ => S754_nan
    end
  else
    match m + 2 ^ 23 with
    | Zpos p => S754_finite s p (e - 150)
    | _ => S754_nan
    end.

Definition f32_val (f : float32) : spec_float := b32_of_bits (f32_bits f).

(** The comparisons of C++ on [float] operands. *)
Definition f32_eqb (a b : float32) : bool := SFeqb (f32_val a) (f32_val b).
Definition f32_ltb (a b : float32) : bool := SFltb (f32_val a) (f32_val b).

(** [0 < x] as C++ evaluates it: false for zeros, negatives and NaN. *)
Definition f32_positive (x : float32) : bool :=
  SFltb (S754_zero false) (f32_val x).

Definition f32_is_nan (x : float32) : bool :=
  match f32_val x with
  | S754_nan => true
  | _ => false
  end.

(* ===================================================================== *)
(** * The parameter record ([dsp_speedy_config]) *)
(* ===================================================================== *)

(** [1.0f] is [0x3F800000]. *)
Definition kDefaultSpeed : float32 := f32_of_bits 0x3F800000.
Definition kDefaultPitch : float32 := f32_of_bits 0x3F800000.
Definition kDefaultRate : float32 := f32_of_bits 0x3F800000.
Definition kDefaultVolume : float32 := f32_of_bits 0x3F800000.
Definition kDefaultNonlinear : bool := false.
Definition kDefaultNonlinearFactor : float32 := f32_of_bits 0x3F800000.

Record dsp_speedy_config := mkConfig {
  speed : float32;
  pitch : float32;
  rate : float32;
  volume : float32;
  nonlinear_enabled : bool;
  nonlinear_factor : float32
}.

(** The constructor [dsp_speedy_config()]. *)
Definition default_config : dsp_speedy_config :=
  mkConfig kDefaultSpeed kDefaultPitch kDefaultRate kDefaultVolume
           kDefaultNonlinear kDefaultNonlinearFactor.

Definition is_default (c : dsp_speedy_config) : bool :=
  f32_eqb (speed c) kDefaultSpeed &&
  f32_eqb (pitch c) kDefaultPitch &&
  f32_eqb (rate c) kDefaultRate &&
  f32_eqb (volume c) kDefaultVolume &&
  Bool.eqb (nonlinear_enabled c) kDefaultNonlinear.

(** [reset] overwrites the record with a freshly constructed one. *)
Definition reset (c : dsp_speedy_config) : dsp_speedy_config := default_config.

Definition set_nonlinear_factor (f : float32) (c : dsp_speedy_config)
  : dsp_speedy_config :=
  mkConfig (speed c) (pitch c) (rate c) (volume c) (nonlinear_enabled c) f.

(** The invariant the specification states for the record. *)
Definition multipliers_positive (c : dsp_speedy_config) : bool :=
  f32_positive (speed c) && f32_positive (pitch c) &&
  f32_positive (rate c) && f32_positive (volume c) &&
  f32_positive (nonlinear_factor c).

(* ===================================================================== *)
(** * Presets: [make_preset] and [parse_preset] *)
(* ===================================================================== *)

Record GUID := mkGUID {
  Data1 : Z;
  Data2 : Z;
  Data3 : Z;
  Data4 : list Z
}.

Definition guid_eqb (a b : GUID) : bool :=
  (Data1 a =? Data1 b) && (Data2 a =? Data2 b) && (Data3 a =? Data3 b) &&
  (if list_eq_dec Z.eq_dec (Data4 a) (Data4 b) then true else false).

(** {8E4A9F2C-3B5D-4E7A-9C1F-6D8B2A4E5F3C} *)
Definition g_dsp_speedy_guid : GUID :=
  mkGUID 0x8e4a9f2c 0x3b5d 0x4e7a
         [0x9c; 0x1f; 0x6d; 0x8b; 0x2a; 0x4e; 0x5f; 0x3c].

(** What the component uses of the host's [dsp_preset]: an owner and a
    block of bytes. *)
Record dsp_preset := mkPreset {
  get_owner : GUID;
  get_data : list byte
}.

Definition get_data_size (p : dsp_preset) : Z := Z.of_nat (length (get_data p)).

Definition sizeof_float : Z := 4.
Definition sizeof_bool : Z := 1.

(** The fixed size of the blob: five floats and one bool. *)
Definition preset_size : Z := sizeof_float * 5 + sizeof_bool.

Definition byte_at (d : list byte) (i : nat) : byte := nth i d x00.

(** [reinterpret_cast<const float*>(data)[i]] *)
Definition floats_at (d : list byte) (i : nat) : float32 :=
  mkF32 (byte_at d (4 * i)) (byte_at d (4 * i + 1))
        (byte_at d (4 * i + 2)) (byte_at d (4 * i + 3)).

(** [*reinterpret_cast<const bool*>(data + off)]: the byte read as a
    [bool], true when it is not zero.  The values of a [bool] are the
    bytes 0 and 1; the language does not define the read of another
    byte, which the model takes as [true]. *)
Definition bool_at (d : list byte) (off : nat) : bool :=
  negb (Bytes.to_Z (byte_at d off) =? 0).

Definition float_bytes (f : float32) : list byte :=
  [fb0 f; fb1 f; fb2 f; fb3 f].

Definition bool_byte (b : bool) : byte := if b then x01 else x00.

Definition parse_preset (preset : dsp_preset) (config : dsp_speedy_config)
  : dsp_speedy_config :=
  if negb (guid_eqb (get_owner preset) g_dsp_speedy_guid) then reset config
  else
    let d := get_data preset in
    let size := get_data_size preset in
    if preset_size <=? size then
      mkConfig (floats_at d 0) (floats_at d 1) (floats_at d 2) (floats_at d 3)
               (bool_at d (Z.to_nat (sizeof_float * 5)))
               (floats_at d 4)
    else reset config.

Definition make_preset (config : dsp_speedy_config) : dsp_preset :=
  mkPreset g_dsp_speedy_guid
           (float_bytes (speed config) ++ float_bytes (pitch config) ++
            float_bytes (rate config) ++ float_bytes (volume config) ++
            float_bytes (nonlinear_factor config) ++
            [bool_byte (nonlinear_enabled config)]).

(** The blob of 21 zero bytes: of our owner and of the right size. *)
Definition zero_blob : dsp_preset := mkPreset g_dsp_speedy_guid (repeat x00 21).

(* ===================================================================== *)
(** * The sample codec *)
(* ===================================================================== *)

(** binary32 and binary64 arithmetic, round to nearest even. *)
Definition f32_mul : spec_float -> spec_float -> spec_float := SFmul 24 128.
Definition f64_div : spec_float -> spec_float -> spec_float := SFdiv 53 1024.

(** An integer literal or value converted to [float] and to [double]. *)
Definition f32_of_Z (z : Z) : spec_float := binary_normalize 24 128 z 0 false.
Definition f64_of_Z (z : Z) : spec_float := binary_normalize 53 1024 z 0 false.

(** The integer part of a float, rounding toward zero; no result for an
    infinity or a NaN. *)
Definition trunc_to_Z (f : spec_float) : option Z :=
  match f with
  | S754_zero _ => Some 0
  | S754_finite s m e =>
      let a := if 0 <=? e then Zpos m * 2 ^ e else Zpos m / 2 ^ (- e) in
      Some (if s then - a else a)
  | S754_infinity _ => None
  | S754_nan => None
  end.

(** [static_cast<short>(sample)]: C++ defines the conversion only when
    the truncated value fits the destination type. *)
Definition static_cast_short (f : spec_float) : option Z :=
  match trunc_to_Z f with
  | Some z => if (-32768 <=? z) && (z <=? 32767) then Some z else None
  | None => None
  end.

(** The body of the conversion loop of [on_chunk], for one sample already
    cast to [float]. *)
Definition to_fixed (x : float32) : option Z :=
  let sample := f32_mul (f32_val x) (f32_of_Z 32767) in
  let sample := if SFltb (f32_of_Z 32767) sample then f32_of_Z 32767 else sample in
  let sample := if SFltb sample (f32_of_Z (-32768)) then f32_of_Z (-32768) else sample in
  static_cast_short sample.

(** The two clamps and the cast of [to_fixed], as a function of the
    product. *)
Definition clamp_to_short (sample : spec_float) : option Z :=
  let sample := if SFltb (f32_of_Z 32767) sample then f32_of_Z 32767 else sample in
  let sample := if SFltb sample (f32_of_Z (-32768)) then f32_of_Z (-32768) else sample in
  static_cast_short sample.

(** [1.0f] and [-1.0f], the ends of the host's nominal sample range. *)
Definition f32_one : float32 := f32_of_bits 0x3F800000.
Definition f32_minus_one : float32 := f32_of_bits 0xBF800000.

(** ** Rounding to binary32, spelled out

    [binary_round_aux 24 128] cuts the exact mantissa [P] at exponent [E]
    by [round32_shift P E] bits, moves the cut mantissa up by at most one
    unit and renormalises when that carries into bit 24:
    [round32_result] is what it returns for the moved mantissa [m] at the
    exponent [e] reached by the cut. *)
Definition round32_shift (P : positive) (E : Z) : Z :=
  Z.max 0 (Z.max (Zpos (digits2_pos P) + E - 24) (-149) - E).

Definition round32_result (s : bool) (m e : Z) : spec_float :=
  if m =? 0 then S754_zero s
  else if m =? 2 ^ 24 then
    if e + 1 <=? 104 then S754_finite s (Z.to_pos (2 ^ 23)) (e + 1)
    else S754_infinity s
  else if e <=? 104 then S754_finite s (Z.to_pos m) e
  else S754_infinity s.

(** The 256 patterns that follow [-1.0f], from [0xBF800001] to
    [0xBF800100], with the result of [to_fixed] on each: [-32767] for the
    first 255 and [-32768] for the last. *)
Definition knee_check (j : nat) : bool :=
  match to_fixed (f32_of_bits (0xBF800000 + Z.of_nat j)) with
  | Some a => a =? (if Z.of_nat j <? 256 then -32767 else -32768)
  | None => false
  end.

(* ===================================================================== *)
(** * Integer conversions *)
(* ===================================================================== *)

(** [static_cast<int>] of an integer value, and the value of an [unsigned]
    expression: both keep the low 32 bits. *)
Definition to_int (z : Z) : Z := (z + 2 ^ 31) mod 2 ^ 32 - 2 ^ 31.
Definition to_unsigned (z : Z) : Z := z mod 2 ^ 32.

(** [std::vector::resize]: shorter vectors are cut, longer ones are filled
    with value-initialised elements. *)
Definition resize {A : Type} (zero : A) (n : Z) (v : list A) : list A :=
  firstn (Z.to_nat n) v ++ repeat zero (Z.to_nat n - length v).

(** Storing the samples [d] at offset [off] of [v]. *)
Definition store_at {A : Type} (v : list A) (off : Z) (d : list A) : list A :=
  firstn (Z.to_nat off) v ++ d ++ skipn (Z.to_nat off + length d) v.

(* ===================================================================== *)
(** * The external collaborators *)
(* ===================================================================== *)

(** The Sonic/Speedy engine, through the operations the component calls.
    [world] is the whole state of the library, which every call may
    change; [sonicStream] is a non-null stream handle.  A call that
    returns a null stream or a status returns [None] or an [int]. *)
Class Sonic := {
  world : Type;
  sonicStream : Type;
  sonicCreateStream : Z -> Z -> world -> option sonicStream * world;
  sonicDestroyStream : sonicStream -> world -> world;
  sonicSetSpeed : sonicStream -> float32 -> world -> world;
  sonicIntSetPitch : sonicStream -> float32 -> world -> world;
  sonicSetRate : sonicStream -> float32 -> world -> world;
  sonicIntSetVolume : sonicStream -> float32 -> world -> world;
  sonicEnableNonlinearSpeedup : sonicStream -> float32 -> world -> world;
  (** samples, frame count: status *)
  sonicWriteShortToStream : sonicStream -> list Z -> Z -> world -> Z * world;
  (** largest frame count accepted: frames returned and the samples
      stored in the caller's buffer *)
  sonicReadShortFromStream : sonicStream -> Z -> world -> (Z * list Z) * world
}.

(** The host's sample type [audio_sample] (a [float] or a [double],
    chosen by the SDK) with the conversions [on_chunk] applies to it, and
    the value the target leaves in a [short] when the converted float has
    no defined conversion. *)
Class Host := {
  audio_sample : Type;
  (** [static_cast<float>(input[i])] *)
  sample_to_float : audio_sample -> float32;
  (** a [double] value stored into an [audio_sample] *)
  sample_of_double : spec_float -> audio_sample;
  short_of_undefined : Z
}.

(** The engine calls an operation makes, in order. *)
Inductive sonic_call {S : Sonic} :=
| CreateStream (sample_rate channels : Z) (result : option sonicStream)
| DestroyStream (s : sonicStream)
| SetSpeed (s : sonicStream) (v : float32)
| SetPitch (s : sonicStream) (v : float32)
| SetRate (s : sonicStream) (v : float32)
| SetVolume (s : sonicStream) (v : float32)
| EnableNonlinearSpeedup (s : sonicStream) (v : float32)
| WriteShort (s : sonicStream) (frames : Z) (result : Z)
| ReadShort (s : sonicStream) (max_frames : Z) (result : Z)
| FlushStream (s : sonicStream) (result : Z).

Section Adapter.

Context {S : Sonic} {H : Host}.

(** ** Engine calls as a state monad with a call log *)

Record env := mkEnv { the_world : world; calls : list sonic_call }.

Definition M (A : Type) : Type := env -> A * env.

Definition ret {A : Type} (a : A) : M A := fun e => (a, e).

Definition bind {A B : Type} (c : M A) (k : A -> M B) : M B :=
  fun e => let '(a, e') := c e in k a e'.

Notation "x <- c ;; k" := (bind c (fun x => k))
  (at level 61, c at next level, right associativity).
Notation "c ;;; k" := (bind c (fun _ => k))
  (at level 61, right associativity).

Definition create_stream (sample_rate channels : Z) : M (option sonicStream) :=
  fun e =>
    let '(r, w) := sonicCreateStream sample_rate channels (the_world e) in
    (r, mkEnv w (calls e ++ [CreateStream sample_rate channels r])).

Definition call (f : world -> world) (c : sonic_call) : M unit :=
  fun e => (tt, mkEnv (f (the_world e)) (calls e ++ [c])).

Definition write_short (s : sonicStream) (samples : list Z) (frames : Z) : M Z :=
  fun e =>
    let '(r, w) := sonicWriteShortToStream s samples frames (the_world e) in
    (r, mkEnv w (calls e ++ [WriteShort s frames r])).

Definition read_short (s : sonicStream) (max_frames : Z) : M (Z * list Z) :=
  fun e =>
    let '(r, w) := sonicReadShortFromStream s max_frames (the_world e) in
    (r, mkEnv w (calls e ++ [ReadShort s max_frames (fst r)])).

(** ** The host's audio chunk

    [get_samples] is the chunk's [get_data()], the interleaved samples;
    the name [get_data] is taken by the preset. *)

Record audio_chunk := mkChunk {
  get_samples : list audio_sample;
  get_sample_count : Z;
  get_srate : Z;
  get_channels : Z;
  get_channel_config : Z
}.

(** [audio_chunk::set_data]: replaces the contents by [samples] frames
    of [nch] channels copied from [src], with the given rate and layout. *)
Definition set_data (src : list audio_sample) (samples nch srate config : Z)
  : audio_chunk :=
  mkChunk (firstn (Z.to_nat (samples * nch)) src) samples srate nch config.

(** [static_cast<audio_sample>(0)] *)
Definition audio_zero : audio_sample := sample_of_double (S754_zero false).

(** [static_cast<audio_sample>(s) / 32767.0]: a division in [double]. *)
Definition to_float (s : Z) : audio_sample :=
  sample_of_double (f64_div (f64_of_Z s) (f64_of_Z 32767)).

(** One iteration of the conversion loop, from the host's sample. *)
Definition to_short (x : audio_sample) : Z :=
  match to_fixed (sample_to_float x) with
  | Some z => z
  | None => short_of_undefined
  end.

(** ** The DSP object *)

Record dsp_speedy := mkDsp {
  m_config : dsp_speedy_config;
  m_stream : option sonicStream;
  m_sample_rate : Z;
  m_channels : Z;
  m_channel_config : Z;
  m_input_buffer : list Z;
  m_output_buffer : list Z;
  m_audio_output : list audio_sample
}.

Definition with_stream (s : option sonicStream) (d : dsp_speedy) : dsp_speedy :=
  mkDsp (m_config d) s (m_sample_rate d) (m_channels d) (m_channel_config d)
        (m_input_buffer d) (m_output_buffer d) (m_audio_output d).

Definition with_format (r c l : Z) (d : dsp_speedy) : dsp_speedy :=
  mkDsp (m_config d) (m_stream d) r c l
        (m_input_buffer d) (m_output_buffer d) (m_audio_output d).

Definition with_input_buffer (b : list Z) (d : dsp_speedy) : dsp_speedy :=
  mkDsp (m_config d) (m_stream d) (m_sample_rate d) (m_channels d)
        (m_channel_config d) b (m_output_buffer d) (m_audio_output d).

Definition with_output_buffer (b : list Z) (d : dsp_speedy) : dsp_speedy :=
  mkDsp (m_config d) (m_stream d) (m_sample_rate d) (m_channels d)
        (m_channel_config d) (m_input_buffer d) b (m_audio_output d).

Definition with_audio_output (b : list audio_sample) (d : dsp_speedy) : dsp_speedy :=
  mkDsp (m_config d) (m_stream d) (m_sample_rate d) (m_channels d)
        (m_channel_config d) (m_input_buffer d) (m_output_buffer d) b.

(** The constructor [dsp_speedy(const dsp_preset&)]. *)
Definition dsp_speedy_new (preset : dsp_preset) : dsp_speedy :=
  mkDsp (parse_preset preset default_config) None 0 0 0 [] [] [].

Definition cleanup_stream (this : dsp_speedy) : M dsp_speedy :=
  match m_stream this with
  | Some s =>
      call (sonicDestroyStream s) (DestroyStream s) ;;;
      ret (with_stream None this)
  | None => ret this
  end.

Definition init_stream (this : dsp_speedy) (sample_rate channels : Z)
  : M (bool * dsp_speedy) :=
  r <- create_stream sample_rate channels ;;
  let this := with_stream r this in
  match r with
  | None => ret (false, this)
  | Some s =>
      let c := m_config this in
      call (sonicSetSpeed s (speed c)) (SetSpeed s (speed c)) ;;;
      call (sonicIntSetPitch s (pitch c)) (SetPitch s (pitch c)) ;;;
      call (sonicSetRate s (rate c)) (SetRate s (rate c)) ;;;
      call (sonicIntSetVolume s (volume c)) (SetVolume s (volume c)) ;;;
      (if nonlinear_enabled c
       then call (sonicEnableNonlinearSpeedup s (nonlinear_factor c))
                 (EnableNonlinearSpeedup s (nonlinear_factor c))
       else ret tt) ;;;
      ret (true, this)
  end.

(** [flush]: tear the stream down and forget the format. *)
Definition flush (this : dsp_speedy) : M dsp_speedy :=
  this <- cleanup_stream this ;;
  ret (with_format 0 0 0 this).

(** The format test of [on_chunk]. *)
Definition format_changed (this : dsp_speedy) (chunk : audio_chunk) : bool :=
  negb (get_srate chunk =? m_sample_rate this)
  || negb (get_channels chunk =? m_channels this)
  || negb (get_channel_config chunk =? m_channel_config this).

(** A value together with the equation that names it, for the tests of
    the loop below. *)
Definition inspect {A : Type} (a : A) : {b : A | a = b} := exist _ a eq_refl.

(** ** The drain loop

    [while ((samples_read = sonicReadShortFromStream(m_stream,
               m_output_buffer.data() + total_read * channels,
               max_samples - total_read)) > 0) {
       total_read += samples_read;
       if (total_read >= max_samples) break;
     }]

    The state is [(total_read, m_output_buffer)].  Every turn that
    continues has raised [total_read] and left it below [max_samples]. *)
Equations? drain (s : sonicStream) (channels max_samples : Z)
    (st : Z * list Z) (e : env) : (Z * list Z) * env
  by wf (Z.to_nat (max_samples - fst st)) lt :=
  drain s channels max_samples (total_read, buf) e
    with inspect (read_short s (max_samples - total_read) e) := {
    | exist _ ((samples_read, d), e') _ with inspect (0 <? samples_read) := {
      | exist _ false _ := ((total_read, buf), e')
      | exist _ true Hpos
          with inspect (max_samples <=? total_read + samples_read) := {
        | exist _ true _ :=
            ((total_read + samples_read,
              store_at buf (to_unsigned (total_read * channels)) d), e')
        | exist _ false Hlt :=
            drain s channels max_samples
                  (total_read + samples_read,
                   store_at buf (to_unsigned (total_read * channels)) d) e' } } }.
Proof.
  simpl. apply Z.ltb_lt in Hpos. apply Z.leb_gt in Hlt. lia.
Qed.

(** ** [on_chunk] *)

(** The work on a bound stream: from the conversion of the input to the
    replacement of the chunk's contents. *)
Definition process (this : dsp_speedy) (chunk : audio_chunk) (s : sonicStream)
  : M (bool * dsp_speedy * audio_chunk) :=
  let sample_count := get_sample_count chunk in
  let sample_rate := get_srate chunk in
  let channels := get_channels chunk in
  let channel_config := get_channel_config chunk in
  let input := get_samples chunk in
  let this :=
    with_input_buffer
      (map to_short (firstn (Z.to_nat (sample_count * channels)) input)) this in
  ok <- write_short s (m_input_buffer this) (to_int sample_count) ;;
  if ok =? 0 then ret (true, this, chunk)
  else
    let max_samples := to_int (sample_count * 4) in
    let out := resize 0 (to_unsigned (max_samples * channels))
                      (m_output_buffer this) in
    r <- drain s channels max_samples (0, out) ;;
    let '(total_read, out) := r in
    let this := with_output_buffer out this in
    if 0 <? total_read then
      let n := to_int (total_read * to_int channels) in
      let audio :=
        store_at (resize audio_zero (to_unsigned (total_read * channels))
                         (m_audio_output this))
                 0 (map to_float (firstn (Z.to_nat n) out)) in
      ret (true, with_audio_output audio this,
           set_data audio total_read channels sample_rate channel_config)
    else
      let audio := repeat audio_zero (Z.to_nat (sample_count * channels)) in
      ret (true, with_audio_output audio this,
           set_data audio sample_count channels sample_rate channel_config).

(** The block under [// Check if format changed]: the object after it,
    and whether [on_chunk] goes on ([false] is its [return true] on a
    failed [init_stream]). *)
Definition check_format (this : dsp_speedy) (chunk : audio_chunk)
  : M (bool * dsp_speedy) :=
  let sample_rate := get_srate chunk in
  let channels := get_channels chunk in
  let channel_config := get_channel_config chunk in
  if format_changed this chunk then
    this <- cleanup_stream this ;;
    r <- init_stream this sample_rate channels ;;
    let '(ok, this) := r in
    if negb ok then ret (false, this)
    else ret (true, with_format sample_rate channels channel_config this)
  else ret (true, this).

Definition on_chunk (this : dsp_speedy) (chunk : audio_chunk)
  : M (bool * dsp_speedy * audio_chunk) :=
  if is_default (m_config this) then ret (true, this, chunk)
  else
    r <- check_format this chunk ;;
    let '(go_on, this) := r in
    if negb go_on then ret (true, this, chunk)
    else
      match m_stream this with
      | None => ret (true, this, chunk)
      | Some s => process this chunk s
      end.

(** The format a buffer carries and the format the object remembers. *)
Definition chunk_format (chunk : audio_chunk) : Z * Z * Z :=
  (get_srate chunk, get_channels chunk, get_channel_config chunk).

Definition bound_format (this : dsp_speedy) : Z * Z * Z :=
  (m_sample_rate this, m_channels this, m_channel_config this).

(** The frames the reads of a call log returned, and the number of reads. *)
Definition frames_of_call (c : sonic_call) : Z :=
  match c with
  | ReadShort _ _ r => Z.max 0 r
  | _ => 0
  end.

Definition frames_read (l : list sonic_call) : Z :=
  fold_right (fun c n => frames_of_call c + n) 0 l.

Definition is_read (c : sonic_call) : bool :=
  match c with
  | ReadShort _ _ _ => true
  | _ => false
  end.

Definition reads (l : list sonic_call) : Z :=
  Z.of_nat (length (filter is_read l)).

(** The calls that set a fresh stream up, as [init_stream] makes them. *)
Definition setup_calls (s : sonicStream) (c : dsp_speedy_config)
  : list sonic_call :=
  [SetSpeed s (speed c); SetPitch s (pitch c); SetRate s (rate c);
   SetVolume s (volume c)] ++
  (if nonlinear_enabled c
   then [EnableNonlinearSpeedup s (nonlinear_factor c)] else []).

Definition teardown_calls (this : dsp_speedy) : list sonic_call :=
  match m_stream this with
  | Some s => [DestroyStream s]
  | None => []
  end.

(** The engine and the log once [cleanup_stream] has run, and the
    engine once [init_stream] has set a fresh stream up. *)
Definition after_teardown (this : dsp_speedy) (e : env) : env :=
  match m_stream this with
  | Some s =>
      mkEnv (sonicDestroyStream s (the_world e)) (calls e ++ [DestroyStream s])
  | None => e
  end.

Definition setup_world (s : sonicStream) (c : dsp_speedy_config) (w : world)
  : world :=
  let w := sonicSetSpeed s (speed c) w in
  let w := sonicIntSetPitch s (pitch c) w in
  let w := sonicSetRate s (rate c) w in
  let w := sonicIntSetVolume s (volume c) w in
  if nonlinear_enabled c
  then sonicEnableNonlinearSpeedup s (nonlinear_factor c) w else w.

(** The engine never returns more frames than the caller accepts. *)
Definition read_within_max : Prop :=
  forall s max_frames w,
    fst (fst (sonicReadShortFromStream s max_frames w)) <= Z.max 0 max_frames.

End Adapter.

(* ===================================================================== *)
(** * A small engine and host, to run the adapter on *)
(* ===================================================================== *)

(** A pass-through engine with a latency of two frames: it queues what is
    written, releases nothing while fewer than two frames are queued, and
    never returns more frames than asked for.  It has one stream and
    accepts one or two channels.  The host stores samples as [float]. *)
Module Fifo.

Record fifo := mkFifo { queue : list Z; nch : Z }.

Definition frames (w : fifo) : Z :=
  if nch w <=? 0 then 0 else Z.of_nat (length (queue w)) / nch w.

Definition create (sample_rate channels : Z) (w : fifo) : option unit * fifo :=
  if (0 <? channels) && (channels <=? 2) then (Some tt, mkFifo [] channels)
  else (None, w).

Definition write (s : unit) (samples : list Z) (n : Z) (w : fifo) : Z * fifo :=
  (1, mkFifo (queue w ++ samples) (nch w)).

Definition read (s : unit) (max_frames : Z) (w : fifo) : (Z * list Z) * fifo :=
  if frames w <? 2 then ((0, []), w)
  else
    let n := Z.max 0 (Z.min (frames w) max_frames) in
    let k := Z.to_nat (n * nch w) in
    ((n, firstn k (queue w)), mkFifo (skipn k (queue w)) (nch w)).

#[export] Instance engine : Sonic := {|
  world := fifo;
  sonicStream := unit;
  sonicCreateStream := create;
  sonicDestroyStream := fun _ w => mkFifo [] (nch w);
  sonicSetSpeed := fun _ _ w => w;
  sonicIntSetPitch := fun _ _ w => w;
  sonicSetRate := fun _ _ w => w;
  sonicIntSetVolume := fun _ _ w => w;
  sonicEnableNonlinearSpeedup := fun _ _ w => w;
  sonicWriteShortToStream := write;
  sonicReadShortFromStream := read
|}.

(** A [double] rounded to [float] and laid out in memory. *)
Definition bits_of_b32 (f : spec_float) : Z :=
  match f with
  | S754_zero s => if s then 2 ^ 31 else 0
  | S754_infinity s => (if s then 2 ^ 31 else 0) + 255 * 2 ^ 23
  | S754_nan => 0x7FC00000
  | S754_finite s m e =>
      (if s then 2 ^ 31 else 0) +
      (if Zpos m <? 2 ^ 23 then Zpos m else (e + 150) * 2 ^ 23 + (Zpos m - 2 ^ 23))
  end.

Definition float_of_double (d : spec_float) : float32 :=
  f32_of_bits
    (bits_of_b32
       (match d with
        | S754_finite s m e => binary_round 24 128 s m e
        | _ => d
        end)).

#[export] Instance host : Host := {|
  audio_sample := float32;
  sample_to_float := fun x => x;
  sample_of_double := float_of_double;
  short_of_undefined := 0
|}.

Definition start : env := mkEnv (mkFifo [] 0) [].

(** A non-default record: speed 1.5. *)
Definition faster : dsp_speedy_config :=
  mkConfig (f32_of_bits 0x3FC00000) kDefaultPitch kDefaultRate kDefaultVolume
           kDefaultNonlinear kDefaultNonlinearFactor.

(** A new object, constructed from the preset of the record [c]. *)
Definition fresh (c : dsp_speedy_config) : dsp_speedy :=
  dsp_speedy_new (make_preset c).

(** Mono chunks at 44100 Hz, and a six-channel one the engine refuses. *)
Definition half : float32 := f32_of_bits 0x3F000000.
Definition mono1 : audio_chunk := mkChunk [half] 1 44100 1 4.
Definition mono2 : audio_chunk := mkChunk [half; half] 2 44100 1 4.
Definition surround1 : audio_chunk :=
  mkChunk [half; half; half; half; half; half] 1 48000 6 63.

(** The object and the engine after a first mono chunk of two frames. *)
Definition bound_mono : dsp_speedy :=
  snd (fst (fst (on_chunk (fresh faster) mono2 start))).
Definition after_mono : env := snd (on_chunk (fresh faster) mono2 start).

End Fifo.

(** An engine that always has output ready: every read returns as many
    frames as the read accepts.  Its state is the channel count. *)
Module Flood.

Definition read (s : unit) (max_frames : Z) (w : Z) : (Z * list Z) * Z :=
  let n := Z.max 0 max_frames in
  ((n, repeat 0 (Z.to_nat (n * w))), w).

#[export] Instance engine : Sonic := {|
  world := Z;
  sonicStream := unit;
  sonicCreateStream := fun _ channels _ => (Some tt, channels);
  sonicDestroyStream := fun _ w => w;
  sonicSetSpeed := fun _ _ w => w;
  sonicIntSetPitch := fun _ _ w => w;
  sonicSetRate := fun _ _ w => w;
  sonicIntSetVolume := fun _ _ w => w;
  sonicEnableNonlinearSpeedup := fun _ _ w => w;
  sonicWriteShortToStream := fun _ _ _ w => (1, w);
  sonicReadShortFromStream := read
|}.

Definition start : env := mkEnv 0 [].

Definition fresh (c : dsp_speedy_config) : @dsp_speedy engine Fifo.host :=
  dsp_speedy_new (make_preset c).

End Flood.

(* ===================================================================== *)
(** * The rest of the component *)
(* ===================================================================== *)

(** [g_get_default_preset]: the preset of a newly constructed record. *)
Definition g_get_default_preset : dsp_preset := make_preset default_config.

(** binary32 division, binary64 addition, and a binary32 value laid out in
    memory. *)
Definition f32_div : spec_float -> spec_float -> spec_float := SFdiv 24 128.
Definition f64_add : spec_float -> spec_float -> spec_float := SFadd 53 1024.
Definition f32_of_val (v : spec_float) : float32 :=
  f32_of_bits (Fifo.bits_of_b32 v).

(** [static_cast<int>] of a [float]: defined when the truncated value is
    an [int]. *)
Definition static_cast_int (f : spec_float) : option Z :=
  match trunc_to_Z f with
  | Some z => if (- 2 ^ 31 <=? z) && (z <? 2 ^ 31) then Some z else None
  | None => None
  end.

(** The [double] literals [0.02] and [0.12]: the doubles nearest to 2/100
    and to 12/100, which a correctly rounded division gives. *)
Definition latency_base : spec_float := f64_div (f64_of_Z 2) (f64_of_Z 100).
Definition latency_lookahead : spec_float := f64_div (f64_of_Z 12) (f64_of_Z 100).

Section Lifecycle.

Context {S : Sonic} {H : Host}.

Definition has_stream (this : dsp_speedy) : bool :=
  match m_stream this with
  | Some _ => true
  | None => false
  end.

(** The streams the object holds: one or none. *)
Definition stream_count (this : dsp_speedy) : Z :=
  if has_stream this then 1 else 0.

(** [get_latency] *)
Definition get_latency (this : dsp_speedy) : spec_float :=
  if (0 <? m_sample_rate this) && has_stream this then
    let latency := latency_base in
    let latency :=
      if nonlinear_enabled (m_config this)
      then f64_add latency latency_lookahead else latency in
    latency
  else S754_zero false.

(** The destructor [~dsp_speedy]. *)
Definition dsp_speedy_delete (this : dsp_speedy) : M dsp_speedy :=
  cleanup_stream this.

(** [on_endoftrack] does nothing. *)
Definition on_endoftrack (this : dsp_speedy) : M dsp_speedy := ret this.

(** What the host does with the object between construction and
    destruction: it hands it the chunks of the stream one at a time, with
    flushes and track ends in between.  [host_run] returns the object and
    the chunks as the calls leave them. *)
Inductive host_call :=
| OnChunk (chunk : audio_chunk)
| Flush
| OnEndOfTrack.

Fixpoint host_run (this : dsp_speedy) (l : list host_call)
  : M (dsp_speedy * list audio_chunk) :=
  match l with
  | [] => ret (this, [])
  | OnChunk chunk :: rest =>
      bind (on_chunk this chunk) (fun r =>
      bind (host_run (snd (fst r)) rest) (fun r' =>
      ret (fst r', snd r :: snd r')))
  | Flush :: rest => bind (flush this) (fun this => host_run this rest)
  | OnEndOfTrack :: rest =>
      bind (on_endoftrack this) (fun this => host_run this rest)
  end.

Fixpoint chunks_in (l : list host_call) : list audio_chunk :=
  match l with
  | [] => []
  | OnChunk chunk :: rest => chunk :: chunks_in rest
  | _ :: rest => chunks_in rest
  end.

(** Frames in a list of chunks. *)
Definition total_frames (chunks : list audio_chunk) : Z :=
  fold_right (fun c n => get_sample_count c + n) 0 chunks.

(** Streams created and streams destroyed in a call log. *)
Definition created (l : list sonic_call) : Z :=
  Z.of_nat (length (filter (fun c => match c with
                                     | CreateStream _ _ (Some _) => true
                                     | _ => false
                                     end) l)).

Definition destroyed (l : list sonic_call) : Z :=
  Z.of_nat (length (filter (fun c => match c with
                                     | DestroyStream _ => true
                                     | _ => false
                                     end) l)).

(** The samples the reads of the drain loop return, in the order of the
    reads: the loop of [drain], keeping the data only. *)
Equations? drain_data (s : sonicStream) (max_samples total_read : Z) (e : env)
  : list Z by wf (Z.to_nat (max_samples - total_read)) lt :=
  drain_data s max_samples total_read e
    with inspect (read_short s (max_samples - total_read) e) := {
    | exist _ ((samples_read, d), e') _ with inspect (0 <? samples_read) := {
      | exist _ false _ := []
      | exist _ true Hpos
          with inspect (max_samples <=? total_read + samples_read) := {
        | exist _ true _ := d
        | exist _ false Hlt :=
            d ++ drain_data s max_samples (total_read + samples_read) e' } } }.
Proof.
  apply Z.ltb_lt in Hpos. apply Z.leb_gt in Hlt. lia.
Qed.

(** An engine whose reads, in the states [inv] holds of, return whole
    frames of [channels] samples and no more frames than the read
    accepts. *)
Definition read_whole_frames (channels : Z) (inv : world -> Prop) : Prop :=
  forall s max_frames w,
    inv w ->
    let r := sonicReadShortFromStream s max_frames w in
    inv (snd r) /\
    (0 < fst (fst r) ->
     fst (fst r) <= max_frames /\
     Z.of_nat (length (snd (fst r))) = fst (fst r) * channels).

End Lifecycle.

(** ** End of playback *)

(** [sonicFlushStream], the one engine operation [flush_remaining] adds. *)
Class SonicFlush (S : Sonic) := {
  sonicFlushStream : sonicStream -> world -> Z * world
}.

Section EndOfPlayback.

Context {S : Sonic} {H : Host} {F : SonicFlush S}.

Definition flush_stream (s : sonicStream) : M Z :=
  fun e =>
    let '(r, w) := sonicFlushStream s (the_world e) in
    (r, mkEnv w (calls e ++ [FlushStream s r])).

(** [do { samples_read = sonicReadShortFromStream(m_stream,
            m_output_buffer.data(), 4096); } while (samples_read > 0);]
    run for at most [fuel] reads; [None] when they are used up. *)
Fixpoint flush_reads (fuel : nat) (s : sonicStream) (buf : list Z) (e : env)
  : option (list Z * env) :=
  match fuel with
  | O => None
  | Datatypes.S fuel =>
      let '((samples_read, d), e') := read_short s 4096 e in
      let buf := store_at buf 0 d in
      if 0 <? samples_read then flush_reads fuel s buf e'
      else Some (buf, e')
  end.

Definition flush_remaining (fuel : nat) (this : dsp_speedy) (e : env)
  : option (dsp_speedy * env) :=
  match m_stream this with
  | Some s =>
      let '(_, e) := flush_stream s e in
      let buf := resize 0 (to_unsigned (4096 * m_channels this))
                        (m_output_buffer this) in
      match flush_reads fuel s buf e with
      | Some (buf, e) => Some (with_output_buffer buf this, e)
      | None => None
      end
  | None => Some (this, e)
  end.

Definition on_endofplayback (fuel : nat) (this : dsp_speedy) (e : env)
  : option (dsp_speedy * env) :=
  flush_remaining fuel this e.

End EndOfPlayback.

(** The two small engines flush by doing nothing more: the queue engine
    then releases what it holds, read by read. *)
#[export] Instance fifo_flush : SonicFlush Fifo.engine := {|
  sonicFlushStream := fun _ w => (1, w)
|}.

#[export] Instance flood_flush : SonicFlush Flood.engine := {|
  sonicFlushStream := fun _ w => (1, w)
|}.

(** An engine that takes no input: it creates a stream for any format,
    refuses every write and has nothing to read. *)
Module Deaf.

#[export] Instance engine : Sonic := {|
  world := unit;
  sonicStream := unit;
  sonicCreateStream := fun _ _ w => (Some tt, w);
  sonicDestroyStream := fun _ w => w;
  sonicSetSpeed := fun _ _ w => w;
  sonicIntSetPitch := fun _ _ w => w;
  sonicSetRate := fun _ _ w => w;
  sonicIntSetVolume := fun _ _ w => w;
  sonicEnableNonlinearSpeedup := fun _ _ w => w;
  sonicWriteShortToStream := fun _ _ _ w => (0, w);
  sonicReadShortFromStream := fun _ _ w => ((0, []), w)
|}.

Definition start : env := mkEnv tt [].

Definition fresh (c : dsp_speedy_config) : @dsp_speedy engine Fifo.host :=
  dsp_speedy_new (make_preset c).

End Deaf.

(** An engine that does not look at the frame limit of a read: every read
    returns 1000 frames.  Its state is the channel count. *)
Module Overrun.

Definition read (s : unit) (max_frames : Z) (w : Z) : (Z * list Z) * Z :=
  ((1000, repeat 0 (Z.to_nat (1000 * w))), w).

#[export] Instance engine : Sonic := {|
  world := Z;
  sonicStream := unit;
  sonicCreateStream := fun _ channels _ => (Some tt, channels);
  sonicDestroyStream := fun _ w => w;
  sonicSetSpeed := fun _ _ w => w;
  sonicIntSetPitch := fun _ _ w => w;
  sonicSetRate := fun _ _ w => w;
  sonicIntSetVolume := fun _ _ w => w;
  sonicEnableNonlinearSpeedup := fun _ _ w => w;
  sonicWriteShortToStream := fun _ _ _ w => (1, w);
  sonicReadShortFromStream := read
|}.

Definition start : env := mkEnv 0 [].

Definition fresh (c : dsp_speedy_config) : @dsp_speedy engine Fifo.host :=
  dsp_speedy_new (make_preset c).

End Overrun.

(** ** The configuration dialog *)

(** [SendMessage(slider, TBM_GETPOS, 0, 0) / 100.0f] *)
Definition slider_value (pos : Z) : float32 :=
  f32_of_val (f32_div (f32_of_Z pos) (f32_of_Z 100)).

(** [static_cast<int>(value * 100)] *)
Definition slider_pos (value : float32) : option Z :=
  static_cast_int (f32_mul (f32_val value) (f32_of_Z 100)).

Inductive dialog_command :=
| IDC_NONLINEAR (bn_clicked : bool) (checked : bool)
| IDC_RESET
| IDOK
| IDCANCEL
| IDC_other.

(** A message with what the handler reads for it: the [DialogData] behind
    [lParam], the positions of the two sliders. *)
Inductive dialog_message :=
| WM_INITDIALOG (lParam : dsp_speedy_config)
| WM_HSCROLL (speed_pos pitch_pos : Z)
| WM_COMMAND (c : dialog_command)
| WM_other.

(** What one call of [DialogProc] leaves: its return value, the config of
    the [DialogData] behind the window (absent until [WM_INITDIALOG]),
    the preset handed to [on_preset_changed] if any, the positions and the
    check mark written to the controls if any, and the code given to
    [EndDialog] if any.  The two text labels are left out. *)
Record dialog_outcome := mkOutcome {
  dlg_return : bool;
  dlg_data : option dsp_speedy_config;
  dlg_preset : option dsp_preset;
  dlg_controls : option (option Z * option Z * bool);
  dlg_end : option dialog_command
}.

Definition DialogProc (data : option dsp_speedy_config) (message : dialog_message)
  : dialog_outcome :=
  match message with
  | WM_INITDIALOG config =>
      mkOutcome true (Some config) None
                (Some (slider_pos (speed config), slider_pos (pitch config),
                       nonlinear_enabled config))
                None
  | WM_HSCROLL speed_pos pitch_pos =>
      match data with
      | Some config =>
          let config :=
            mkConfig (slider_value speed_pos) (slider_value pitch_pos)
                     (rate config) (volume config)
                     (nonlinear_enabled config) (nonlinear_factor config) in
          mkOutcome true (Some config) (Some (make_preset config)) None None
      | None => mkOutcome true None None None None
      end
  | WM_COMMAND (IDC_NONLINEAR bn_clicked checked) =>
      match data with
      | Some config =>
          if bn_clicked then
            let config :=
              mkConfig (speed config) (pitch config) (rate config)
                       (volume config) checked (nonlinear_factor config) in
            mkOutcome true (Some config) (Some (make_preset config)) None None
          else mkOutcome true data None None None
      | None => mkOutcome true None None None None
      end
  | WM_COMMAND IDC_RESET =>
      match data with
      | Some config =>
          let config := reset config in
          mkOutcome true (Some config) (Some (make_preset config))
                    (Some (Some 100, Some 100, false)) None
      | None => mkOutcome true None None None None
      end
  | WM_COMMAND IDOK => mkOutcome true data None None (Some IDOK)
  | WM_COMMAND IDCANCEL => mkOutcome true data None None (Some IDCANCEL)
  | WM_COMMAND IDC_other => mkOutcome false data None None None
  | WM_other => mkOutcome false data None None None
  end.

(** The presets handed to the callback while the messages of a dialog are
    handled, oldest first, and the config left behind the window. *)
Fixpoint dialog_run (data : option dsp_speedy_config)
    (messages : list dialog_message)
  : option dsp_speedy_config * list dsp_preset :=
  match messages with
  | [] => (data, [])
  | m :: rest =>
      let o := DialogProc data m in
      let '(data', presets) := dialog_run (dlg_data o) rest in
      (data',
       match dlg_preset o with
       | Some p => p :: presets
       | None => presets
       end)
  end.

(** [g_show_config_popup]: the dialog is created on the record parsed from
    the preset, so [WM_INITDIALOG] comes first. *)
Definition g_show_config_popup (preset : dsp_preset)
    (messages : list dialog_message) : list dsp_preset :=
  snd (dialog_run None
         (WM_INITDIALOG (parse_preset preset default_config) :: messages)).

(** A message that follows the creation of the dialog: it is not
    [WM_INITDIALOG], and a scroll message reads positions within the
    ranges [WM_INITDIALOG] gave the sliders. *)
Definition from_user (m : dialog_message) : Prop :=
  match m with
  | WM_INITDIALOG _ => False
  | WM_HSCROLL speed_pos pitch_pos =>
      25 <= speed_pos <= 400 /\ 50 <= pitch_pos <= 200
  | _ => True
  end.

(** Checks run over the slider range; [0x3E800000] is 0.25 and
    [0x40800000] is 4.0. *)
Definition slider_value_check (pos : Z) : bool :=
  f32_positive (slider_value pos) &&
  negb (f32_ltb (slider_value pos) (f32_of_bits 0x3E800000)) &&
  negb (f32_ltb (f32_of_bits 0x40800000) (slider_value pos)) &&
  Bool.eqb (f32_bits (slider_value pos) =? 0x3F800000) (pos =? 100).

Definition drifting_positions : list Z :=
  [53; 59; 105; 106; 117; 118; 209; 210; 211; 212; 234; 235; 236; 237].

Definition slider_pos_check (pos : Z) : bool :=
  match slider_pos (slider_value pos) with
  | Some q =>
      q =? (if existsb (Z.eqb pos) drifting_positions then pos - 1 else pos)
  | None => false
  end.

(** Rate, volume and nonlinear factor of a record, which no control of the
    dialog shows. *)
Definition hidden_fields (c : dsp_speedy_config) : float32 * float32 * float32 :=
  (rate c, volume c, nonlinear_factor c).

(* ===================================================================== *)
(** * Facts about bytes and floats in memory *)
(* ===================================================================== *)

(** Powers of two as numerals, and goals with [/] and [mod] by numerals. *)
Ltac pow2 :=
  change (2 ^ 8) with 256 in *; change (2 ^ 16) with 65536 in *;
  change (2 ^ 23) with 8388608 in *; change (2 ^ 24) with 16777216 in *;
  change (2 ^ 31) with 2147483648 in *; change (2 ^ 32) with 4294967296 in *.

Ltac divmod := pow2; Z.div_mod_to_equations; lia.

Lemma byte_to_Z_range (b : byte) : 0 <= Bytes.to_Z b < 256.
Proof.
  unfold Bytes.to_Z. pose proof (Byte.to_N_bounded b) as Hb. lia.
Qed.

Lemma byte_of_to_Z (b : byte) : Bytes.of_Z (Bytes.to_Z b) = b.
Proof.
  unfold Bytes.of_Z. pose proof (byte_to_Z_range b) as Hr.
  rewrite Z.mod_small by exact Hr.
  unfold Bytes.to_Z. rewrite N2Z.id, Byte.of_to_N. reflexivity.
Qed.

Lemma byte_of_Z_mod (z : Z) : Bytes.of_Z (z mod 256) = Bytes.of_Z z.
Proof.
  unfold Bytes.of_Z. rewrite Z.mod_mod by lia. reflexivity.
Qed.

Lemma f32_bits_range (f : float32) : 0 <= f32_bits f < 2 ^ 32.
Proof.
  unfold f32_bits.
  pose proof (byte_to_Z_range (fb0 f)). pose proof (byte_to_Z_range (fb1 f)).
  pose proof (byte_to_Z_range (fb2 f)). pose proof (byte_to_Z_range (fb3 f)).
  lia.
Qed.

(** The four bytes are recovered from the 32-bit pattern. *)
Lemma f32_of_bits_bits (f : float32) : f32_of_bits (f32_bits f) = f.
Proof.
  destruct f as [a b c d]. unfold f32_of_bits, f32_bits. cbn [fb0 fb1 fb2 fb3].
  pose proof (byte_to_Z_range a) as Ha. pose proof (byte_to_Z_range b) as Hb.
  pose proof (byte_to_Z_range c) as Hc. pose proof (byte_to_Z_range d) as Hd.
  set (x := Bytes.to_Z a + 2 ^ 8 * Bytes.to_Z b + 2 ^ 16 * Bytes.to_Z c
            + 2 ^ 24 * Bytes.to_Z d).
  assert (E0 : x mod 256 = Bytes.to_Z a) by (subst x; divmod).
  assert (E1 : (x / 2 ^ 8) mod 256 = Bytes.to_Z b) by (subst x; divmod).
  assert (E2 : (x / 2 ^ 16) mod 256 = Bytes.to_Z c) by (subst x; divmod).
  assert (E3 : (x / 2 ^ 24) mod 256 = Bytes.to_Z d) by (subst x; divmod).
  rewrite <- (byte_of_Z_mod x), <- (byte_of_Z_mod (x / 2 ^ 8)),
    <- (byte_of_Z_mod (x / 2 ^ 16)), <- (byte_of_Z_mod (x / 2 ^ 24)).
  rewrite E0, E1, E2, E3, !byte_of_to_Z. reflexivity.
Qed.

Lemma f32_bits_inj (a b : float32) : f32_bits a = f32_bits b -> a = b.
Proof.
  intros E. rewrite <- (f32_of_bits_bits a), <- (f32_of_bits_bits b), E.
  reflexivity.
Qed.

(** The fields of a finite, normal binary32 pattern. *)
Lemma b32_fields (x : Z) :
  0 <= x < 2 ^ 32 ->
  0 <= x mod 2 ^ 23 < 2 ^ 23 /\ 0 <= (x / 2 ^ 23) mod 2 ^ 8 < 2 ^ 8 /\
  x = (if 2 ^ 31 <=? x then 2 ^ 31 else 0)
      + 2 ^ 23 * ((x / 2 ^ 23) mod 2 ^ 8) + x mod 2 ^ 23.
Proof.
  intros Hx. destruct (2 ^ 31 <=? x) eqn:E;
    [apply Z.leb_le in E | apply Z.leb_gt in E]; divmod.
Qed.

(** [x == 1.0f] holds for the pattern [0x3F800000] and for no other. *)
Lemma f32_eqb_one (x : float32) :
  f32_eqb x (f32_of_bits 0x3F800000) = true <-> x = f32_of_bits 0x3F800000.
Proof.
  split.
  - intros E. apply f32_bits_inj.
    change (f32_bits (f32_of_bits 0x3F800000)) with 0x3F800000.
    unfold f32_eqb, f32_val in E.
    change (b32_of_bits (f32_bits (f32_of_bits 0x3F800000)))
      with (S754_finite false 8388608 (-23)) in E.
    pose proof (f32_bits_range x) as Hx.
    destruct (b32_fields _ Hx) as (Hm & He & Hdec).
    revert E. unfold b32_of_bits, SFeqb, SFcompare.
    set (m := f32_bits x mod 2 ^ 23) in *.
    set (e := (f32_bits x / 2 ^ 23) mod 2 ^ 8) in *.
    destruct (2 ^ 31 <=? f32_bits x) eqn:Es;
      destruct (e =? 0) eqn:E0.
    + destruct m; discriminate.
    + destruct (e =? 255); [destruct m; discriminate|].
      destruct (m + 2 ^ 23); discriminate.
    + destruct m; try discriminate.
    + destruct (e =? 255); [destruct m; discriminate|].
      destruct (m + 2 ^ 23) as [|p|p] eqn:Ep; try discriminate.
      destruct (Z.compare_spec (e - 150) (-23)) as [Ee| |]; try discriminate.
      destruct (Pos.compare_cont Eq p 8388608) eqn:Ec; try discriminate.
      apply Pos.compare_eq in Ec. intros _. lia.
  - intros ->. reflexivity.
Qed.

(* ===================================================================== *)
(** * The parameter record and its presets *)
(* ===================================================================== *)

Lemma guid_eqb_eq (a b : GUID) : guid_eqb a b = true <-> a = b.
Proof.
  destruct a as [a1 a2 a3 a4], b as [b1 b2 b3 b4]. unfold guid_eqb. simpl.
  destruct (list_eq_dec Z.eq_dec a4 b4) as [E4|N4].
  - rewrite !andb_true_iff, !Z.eqb_eq. split.
    + intros [[[-> ->] ->] _]. subst. reflexivity.
    + intros E. inversion E. auto.
  - rewrite andb_false_r. split; [discriminate|].
    intros E. inversion E. contradiction.
Qed.

Lemma bool_at_bool_byte (pre : list byte) (b : bool) (post : list byte) :
  bool_at (pre ++ bool_byte b :: post) (length pre) = b.
Proof.
  unfold bool_at, byte_at. rewrite nth_middle. destruct b; reflexivity.
Qed.

(** C8: [is_default] holds exactly when speed, pitch, rate and volume are
    1.0 and the nonlinear mode is off; [nonlinear_factor] takes no part in
    it, so a record that differs from the defaults in that field alone is
    still default. *)
Theorem is_default_spec (c : dsp_speedy_config) :
  (is_default c = true <->
     speed c = kDefaultSpeed /\ pitch c = kDefaultPitch /\
     rate c = kDefaultRate /\ volume c = kDefaultVolume /\
     nonlinear_enabled c = false) /\
  (forall f, is_default (set_nonlinear_factor f c) = is_default c) /\
  (forall f, is_default (set_nonlinear_factor f default_config) = true).
Proof.
  split; [|split].
  - unfold is_default, kDefaultSpeed, kDefaultPitch, kDefaultRate,
      kDefaultVolume, kDefaultNonlinear.
    rewrite !andb_true_iff, !f32_eqb_one.
    destruct (nonlinear_enabled c); simpl; intuition congruence.
  - intros f. reflexivity.
  - intros f. reflexivity.
Qed.

(** The default record with [nonlinear_factor] set to 1.5. *)
Lemma is_default_spec_witness :
  is_default (set_nonlinear_factor (f32_of_bits 0x3FC00000) default_config)
    = true.
Proof.
  apply (proj2 (proj2 (is_default_spec default_config))).
Defined.

Lemma parse_preset_make_preset (r c : dsp_speedy_config) :
  parse_preset (make_preset r) c = r.
Proof.
  destruct r as [[s0 s1 s2 s3] [p0 p1 p2 p3] [r0 r1 r2 r3] [v0 v1 v2 v3]
                   en [f0 f1 f2 f3]].
  unfold parse_preset, make_preset. cbn [get_owner get_data].
  change (negb (guid_eqb g_dsp_speedy_guid g_dsp_speedy_guid)) with false.
  cbv iota. cbn [speed pitch rate volume nonlinear_factor nonlinear_enabled
                 float_bytes fb0 fb1 fb2 fb3 app].
  change (preset_size <=? _) with true. cbv iota.
  f_equal. destruct en; reflexivity.
Qed.

(** C5: a record written by [make_preset] and read back by [parse_preset]
    is the same record, field for field; the blob carries the component's
    own identity and has the fixed size. *)
Theorem preset_round_trip (r c : dsp_speedy_config) :
  get_owner (make_preset r) = g_dsp_speedy_guid /\
  get_data_size (make_preset r) = preset_size /\
  parse_preset (make_preset r) c = r /\
  speed (parse_preset (make_preset r) c) = speed r /\
  pitch (parse_preset (make_preset r) c) = pitch r /\
  rate (parse_preset (make_preset r) c) = rate r /\
  volume (parse_preset (make_preset r) c) = volume r /\
  nonlinear_factor (parse_preset (make_preset r) c) = nonlinear_factor r /\
  nonlinear_enabled (parse_preset (make_preset r) c) = nonlinear_enabled r.
Proof.
  rewrite parse_preset_make_preset. repeat split.
Qed.

(** C6: a blob of another owner, and a blob shorter than five floats and a
    bool, both read as the default record, whatever the record held
    before; [parse_preset] is a total function, so nothing is raised. *)
Theorem parse_preset_rejects (p : dsp_preset) (c : dsp_speedy_config) :
  get_owner p <> g_dsp_speedy_guid \/ get_data_size p < preset_size ->
  parse_preset p c = default_config.
Proof.
  intros [Ho|Hs]; unfold parse_preset.
  - destruct (guid_eqb (get_owner p) g_dsp_speedy_guid) eqn:E.
    + apply guid_eqb_eq in E. contradiction.
    + reflexivity.
  - destruct (negb (guid_eqb (get_owner p) g_dsp_speedy_guid)); [reflexivity|].
    cbv zeta. apply Z.leb_gt in Hs. rewrite Hs. reflexivity.
Qed.

(** A foreign blob of full size, and one of our own that is one byte short. *)
Lemma parse_preset_rejects_witness :
  parse_preset (mkPreset (mkGUID 0 0 0 []) (repeat x01 21)) Fifo.faster
    = default_config /\
  parse_preset (mkPreset g_dsp_speedy_guid (repeat x01 20)) Fifo.faster
    = default_config.
Proof.
  split.
  - apply parse_preset_rejects. left. discriminate.
  - apply parse_preset_rejects. right. vm_compute. reflexivity.
Defined.

(** C9, as stated, fails: [parse_preset] accepts a well-formed blob whose
    floats are zero and returns a record with [speed = 0.0]. *)
Lemma parse_preset_not_positive :
  get_owner zero_blob = g_dsp_speedy_guid /\
  get_data_size zero_blob = preset_size /\
  multipliers_positive (parse_preset zero_blob default_config) = false /\
  f32_val (speed (parse_preset zero_blob default_config)) = S754_zero false.
Proof. repeat split. Qed.

(** C9, amended: the constructor and [reset] give five multipliers equal
    to 1.0, hence positive; [parse_preset] checks no value, so on a blob of
    our owner and sufficient size the result has positive multipliers
    exactly when the five floats of the blob are positive, as they are in
    a blob made from a record that has positive multipliers. *)
Theorem multipliers_positive_ops :
  multipliers_positive default_config = true /\
  (forall c, multipliers_positive (reset c) = true) /\
  (forall p c,
     get_owner p = g_dsp_speedy_guid -> preset_size <= get_data_size p ->
     multipliers_positive (parse_preset p c) =
       f32_positive (floats_at (get_data p) 0) &&
       f32_positive (floats_at (get_data p) 1) &&
       f32_positive (floats_at (get_data p) 2) &&
       f32_positive (floats_at (get_data p) 3) &&
       f32_positive (floats_at (get_data p) 4)) /\
  (forall r c,
     multipliers_positive r = true ->
     multipliers_positive (parse_preset (make_preset r) c) = true).
Proof.
  split; [reflexivity|]. split; [intros c; reflexivity|]. split.
  - intros p c Ho Hs. unfold parse_preset.
    rewrite Ho. change (negb (guid_eqb g_dsp_speedy_guid g_dsp_speedy_guid)) with false.
    cbv iota zeta. apply Z.leb_le in Hs. rewrite Hs. reflexivity.
  - intros r c Hr. rewrite parse_preset_make_preset. exact Hr.
Qed.

(** A blob with speed 1.5 and the other floats 1.0. *)
Lemma multipliers_positive_ops_witness :
  multipliers_positive (parse_preset (make_preset Fifo.faster) default_config)
    = true.
Proof.
  apply (proj2 (proj2 (proj2 multipliers_positive_ops))). reflexivity.
Defined.

(* ===================================================================== *)
(** * Rounding to binary32 *)
(* ===================================================================== *)

Lemma digits2_bounds (p : positive) :
  2 ^ (Zpos (digits2_pos p) - 1) <= Zpos p < 2 ^ Zpos (digits2_pos p).
Proof.
  induction p as [p IH|p IH|]; cbn [digits2_pos].
  - rewrite Pos2Z.inj_succ.
    replace (Z.succ (Zpos (digits2_pos p)) - 1) with (Z.succ (Zpos (digits2_pos p) - 1)) by lia.
    rewrite !Z.pow_succ_r by lia. lia.
  - rewrite Pos2Z.inj_succ.
    replace (Z.succ (Zpos (digits2_pos p)) - 1) with (Z.succ (Zpos (digits2_pos p) - 1)) by lia.
    rewrite !Z.pow_succ_r by lia. lia.
  - simpl. lia.
Qed.

Lemma digits2_unique (p : positive) (n : Z) :
  2 ^ (n - 1) <= Zpos p < 2 ^ n -> Zpos (digits2_pos p) = n.
Proof.
  intros [Hl Hu]. pose proof (digits2_bounds p) as [Dl Du].
  set (d := Zpos (digits2_pos p)) in *.
  assert (0 < n).
  { destruct (Z_lt_le_dec 0 n) as [|Hn]; [assumption|].
    destruct (Z.eq_dec n 0) as [->|]; [simpl in Hu; lia|].
    rewrite (Z.pow_neg_r 2 n) in Hu by lia. lia. }
  destruct (Z.lt_trichotomy d n) as [Hlt|[Heq|Hgt]]; [|assumption|].
  - assert (2 ^ d <= 2 ^ (n - 1)) by (apply Z.pow_le_mono_r; lia). lia.
  - assert (2 ^ n <= 2 ^ (d - 1)) by (apply Z.pow_le_mono_r; lia). lia.
Qed.

Lemma shr_1_m (mrs : shr_record) :
  0 <= shr_m mrs -> shr_m (shr_1 mrs) = shr_m mrs / 2.
Proof.
  destruct mrs as [m r s]. cbn [shr_m]. intros Hm. unfold shr_1.
  destruct m as [|[p|p|]|[p|p|]]; cbn [shr_m]; try lia; try reflexivity.
  - apply Z.div_unique with 1; lia.
  - apply Z.div_unique with 0; lia.
Qed.

Lemma shr_iter_m (n : positive) : forall mrs,
  0 <= shr_m mrs ->
  shr_m (iter_pos shr_1 n mrs) = shr_m mrs / 2 ^ Zpos n.
Proof.
  assert (Hnn : forall mrs, 0 <= shr_m mrs -> 0 <= shr_m (shr_1 mrs)).
  { intros mrs Hm. rewrite shr_1_m by assumption. apply Z.div_pos; lia. }
  induction n as [n IH|n IH|]; intros mrs Hm; cbn [iter_pos].
  - assert (H1 : 0 <= shr_m (iter_pos shr_1 n (shr_1 mrs))).
    { rewrite IH by auto. apply Z.div_pos; [auto|]. apply Z.pow_pos_nonneg; lia. }
    rewrite IH, IH, shr_1_m by auto.
    rewrite !Z.div_div by (try apply Z.pow_pos_nonneg; lia).
    f_equal. replace (Zpos n~1) with (1 + Zpos n + Zpos n) by lia.
    rewrite !Z.pow_add_r by lia. change (2 ^ 1) with 2. ring.
  - assert (H1 : 0 <= shr_m (iter_pos shr_1 n mrs)).
    { rewrite IH by auto. apply Z.div_pos; [auto|]. apply Z.pow_pos_nonneg; lia. }
    rewrite IH, IH by auto.
    rewrite !Z.div_div by (try apply Z.pow_pos_nonneg; lia).
    f_equal. replace (Zpos n~0) with (Zpos n + Zpos n) by lia.
    rewrite Z.pow_add_r by lia. reflexivity.
  - rewrite shr_1_m by assumption. reflexivity.
Qed.

Lemma shr_nonpos (mrs : shr_record) (e n : Z) : n <= 0 -> shr mrs e n = (mrs, e).
Proof. intros Hn. destruct n; [reflexivity|lia|reflexivity]. Qed.

Lemma shr_pos (mrs : shr_record) (e n : Z) :
  0 < n -> 0 <= shr_m mrs ->
  exists mrs', shr mrs e n = (mrs', e + n) /\ shr_m mrs' = shr_m mrs / 2 ^ n.
Proof.
  intros Hn Hm. destruct n as [|p|p]; try lia.
  exists (iter_pos shr_1 p mrs). split; [reflexivity|]. apply shr_iter_m. exact Hm.
Qed.

Lemma round_nearest_even_bounds (m : Z) (l : location) :
  m <= round_nearest_even m l <= m + 1.
Proof.
  destruct l as [|[| |]]; simpl; try lia. destruct (Z.even m); lia.
Qed.

Lemma round32_m1_bound (P : positive) (E : Z) :
  0 <= Zpos P / 2 ^ round32_shift P E < 2 ^ 24.
Proof.
  pose proof (digits2_bounds P) as [_ Hu].
  set (d := Zpos (digits2_pos P)) in *. 
  assert (Hk : 0 <= round32_shift P E) by (unfold round32_shift; lia).
  assert (Hkd : d - 24 <= round32_shift P E) by (unfold round32_shift; fold d; lia).
  assert (Hp : 0 < 2 ^ round32_shift P E) by (apply Z.pow_pos_nonneg; lia).
  split; [apply Z.div_pos; lia|].
  apply Z.div_lt_upper_bound; [exact Hp|].
  rewrite <- Z.pow_add_r by lia.
  assert (2 ^ d <= 2 ^ (round32_shift P E + 24)) by (apply Z.pow_le_mono_r; lia).
  lia.
Qed.

Lemma binary_round_aux_shape (s : bool) (P : positive) (E : Z) :
  exists m1',
    Zpos P / 2 ^ round32_shift P E <= m1' <= Zpos P / 2 ^ round32_shift P E + 1 /\
    binary_round_aux 24 128 s (Zpos P) E loc_Exact
      = round32_result s m1' (E + round32_shift P E).
Proof.
  pose proof (round32_m1_bound P E) as Hm1.
  unfold binary_round_aux, shr_fexp, fexp, emin. cbn [Zdigits2 shr_record_of_loc].
  change (3 - 128 - 24) with (-149). change (128 - 24) with 104.
  set (d := Zpos (digits2_pos P)) in *.
  set (k0 := Z.max (d + E - 24) (-149) - E).
  assert (Hk : round32_shift P E = Z.max 0 k0) by reflexivity.
  assert (Hsh : exists mrs', 
     shr {| shr_m := Zpos P; shr_r := false; shr_s := false |} E k0 = (mrs', E + round32_shift P E)
     /\ shr_m mrs' = Zpos P / 2 ^ round32_shift P E).
  { destruct (Z_lt_le_dec 0 k0) as [Hpos|Hneg].
    - destruct (shr_pos {| shr_m := Zpos P; shr_r := false; shr_s := false |} E k0 Hpos)
        as (mrs' & E1 & E2); [cbn; lia|].
      exists mrs'. rewrite Hk, Z.max_r by lia. auto.
    - exists {| shr_m := Zpos P; shr_r := false; shr_s := false |}.
      rewrite shr_nonpos by exact Hneg. rewrite Hk, Z.max_l by lia.
      rewrite Z.add_0_r. cbn [shr_m]. rewrite Z.pow_0_r, Z.div_1_r. auto. }
  destruct Hsh as (mrs' & -> & Em).
  set (e1 := E + round32_shift P E).
  assert (He1 : -149 <= e1) by (subst e1; rewrite Hk; subst k0; lia).
  pose proof (round_nearest_even_bounds (shr_m mrs') (loc_of_shr_record mrs')) as Hr.
  set (m1' := round_nearest_even (shr_m mrs') (loc_of_shr_record mrs')) in *.
  exists m1'. rewrite <- Em. split; [exact Hr|].
  rewrite Em in Hr. unfold round32_result.
  destruct m1' as [|q|q] eqn:Eq; [| |lia].
  - cbn [Zdigits2]. rewrite shr_nonpos by lia. reflexivity.
  - cbn [Zdigits2]. change (Zpos q =? 0) with false. cbv iota.
    destruct (Zpos q =? 2 ^ 24) eqn:E24.
    + apply Z.eqb_eq in E24. injection E24 as ->.
      change (digits2_pos 16777216) with 25%positive.
      assert (E1 : Z.max (25 + e1 - 24) (-149) - e1 = 1) by lia.
      change (IntDef.Z.max (25 + e1 - 24) (-149) - e1)
        with (Z.max (25 + e1 - 24) (-149) - e1).
      rewrite E1. reflexivity.
    + apply Z.eqb_neq in E24.
      pose proof (digits2_bounds q) as [Dl _].
      assert (Hd : Zpos (digits2_pos q) <= 24).
      { destruct (Z_le_gt_dec (Zpos (digits2_pos q)) 24) as [|Hgt]; [assumption|].
        assert (2 ^ 24 <= 2 ^ (Zpos (digits2_pos q) - 1)) by (apply Z.pow_le_mono_r; lia).
        lia. }
      rewrite shr_nonpos by lia. reflexivity.
Qed.

(* ===================================================================== *)
(** * The sample codec: clamping and saturation *)
(* ===================================================================== *)

Lemma to_fixed_clamp (x : float32) :
  to_fixed x = clamp_to_short (f32_mul (f32_val x) (f32_of_Z 32767)).
Proof. reflexivity. Qed.

Lemma f32_of_Z_32767 : f32_of_Z 32767 = S754_finite false 16776704 (-9).
Proof. reflexivity. Qed.

Lemma f32_of_Z_m32768 : f32_of_Z (-32768) = S754_finite true 8388608 (-8).
Proof. reflexivity. Qed.

Lemma SFltb_pos_pos (m1 : positive) (e1 : Z) (m2 : positive) (e2 : Z) :
  SFltb (S754_finite false m1 e1) (S754_finite false m2 e2) =
  match e1 ?= e2 with
  | Lt => true
  | Gt => false
  | Eq => Zpos m1 <? Zpos m2
  end.
Proof.
  unfold SFltb. cbn [SFcompare]. destruct (e1 ?= e2); reflexivity.
Qed.

Lemma SFltb_neg_neg (m1 : positive) (e1 : Z) (m2 : positive) (e2 : Z) :
  SFltb (S754_finite true m1 e1) (S754_finite true m2 e2) =
  match e1 ?= e2 with
  | Lt => false
  | Gt => true
  | Eq => Zpos m2 <? Zpos m1
  end.
Proof.
  unfold SFltb. cbn [SFcompare]. destruct (e1 ?= e2); try reflexivity.
  unfold Z.ltb. cbn [Z.compare]. rewrite (Pos.compare_antisym m1 m2).
  unfold Pos.compare. destruct (Pos.compare_cont Eq m1 m2); reflexivity.
Qed.

Lemma div_pow2_le (m e k : Z) :
  0 <= m -> 0 <= k -> e <= - k -> m / 2 ^ (- e) <= m / 2 ^ k.
Proof.
  intros Hm Hk He. apply Z.div_le_compat_l; [exact Hm|]. split.
  - apply Z.pow_pos_nonneg; lia.
  - apply Z.pow_le_mono_r; lia.
Qed.

Lemma cast_short_pos (m : positive) (e : Z) :
  e < 0 -> Zpos m / 2 ^ (- e) <= 32767 ->
  static_cast_short (S754_finite false m e) = Some (Zpos m / 2 ^ (- e)).
Proof.
  intros He Hle. unfold static_cast_short, trunc_to_Z.
  assert (E0 : (0 <=? e) = false) by (apply Z.leb_gt; lia). rewrite E0.
  assert (0 <= Zpos m / 2 ^ (- e))
    by (apply Z.div_pos; [lia|apply Z.pow_pos_nonneg; lia]).
  assert (E1 : (-32768 <=? Zpos m / 2 ^ (- e)) = true) by (apply Z.leb_le; lia).
  assert (E2 : (Zpos m / 2 ^ (- e) <=? 32767) = true) by (apply Z.leb_le; lia).
  rewrite E1, E2. reflexivity.
Qed.

Lemma cast_short_neg (m : positive) (e : Z) :
  e < 0 -> Zpos m / 2 ^ (- e) <= 32768 ->
  static_cast_short (S754_finite true m e) = Some (- (Zpos m / 2 ^ (- e))).
Proof.
  intros He Hle. unfold static_cast_short, trunc_to_Z.
  assert (E0 : (0 <=? e) = false) by (apply Z.leb_gt; lia). rewrite E0.
  assert (0 <= Zpos m / 2 ^ (- e))
    by (apply Z.div_pos; [lia|apply Z.pow_pos_nonneg; lia]).
  assert (E1 : (-32768 <=? - (Zpos m / 2 ^ (- e))) = true) by (apply Z.leb_le; lia).
  assert (E2 : (- (Zpos m / 2 ^ (- e)) <=? 32767) = true) by (apply Z.leb_le; lia).
  rewrite E1, E2. reflexivity.
Qed.

(** A positive finite sample (mantissa below [2^24]). *)
Lemma clamp_finite_pos (m : positive) (e : Z) :
  Zpos m < 2 ^ 24 ->
  exists z, clamp_to_short (S754_finite false m e) = Some z /\ 0 <= z <= 32767 /\
    ((-9 < e \/ (e = -9 /\ 16776704 < Zpos m)) -> z = 32767).
Proof.
  intros Hm. unfold clamp_to_short. rewrite f32_of_Z_32767, f32_of_Z_m32768.
  rewrite SFltb_pos_pos.
  destruct (Z.compare_spec (-9) e) as [He|He|He].
  - subst e. destruct (Z.ltb_spec 16776704 (Zpos m)) as [Hc|Hc].
    + exists 32767. repeat split; try lia; reflexivity.
    + change (SFltb (S754_finite false m (-9)) (S754_finite true 8388608 (-8)))
        with false. cbv iota.
      assert (Hr : 0 <= Zpos m / 2 ^ (- -9) <= 32767) by (cbn; divmod).
      rewrite cast_short_pos by lia.
      eexists. split; [reflexivity|]. split; [exact Hr|lia].
  - exists 32767. repeat split; try lia; reflexivity.
  - change (SFltb (S754_finite false m e) (S754_finite true 8388608 (-8)))
      with false. cbv iota.
    assert (Hd : 0 <= Zpos m / 2 ^ (- e) <= 32767).
    { split; [apply Z.div_pos; [lia|apply Z.pow_pos_nonneg; lia]|].
      etransitivity; [apply (div_pow2_le (Zpos m) e 10); lia|]. 
      change (2 ^ 10) with 1024. divmod. }
    rewrite cast_short_pos by lia.
    eexists. split; [reflexivity|]. split; [exact Hd|lia].
Qed.

(** A negative finite sample (mantissa below [2^24]). *)
Lemma clamp_finite_neg (m : positive) (e : Z) :
  Zpos m < 2 ^ 24 ->
  exists z, clamp_to_short (S754_finite true m e) = Some z /\ -32768 <= z <= 0 /\
    (2 ^ 23 <= Zpos m -> -9 <= e -> (e = -9 -> 16776704 < Zpos m) ->
     z = -32767 \/ z = -32768).
Proof.
  intros Hm. unfold clamp_to_short. rewrite f32_of_Z_32767, f32_of_Z_m32768.
  change (SFltb (S754_finite false 16776704 (-9)) (S754_finite true m e))
    with false. cbv iota.
  rewrite SFltb_neg_neg.
  destruct (Z.compare_spec e (-8)) as [He|He|He].
  - subst e. destruct (Z.ltb_spec 8388608 (Zpos m)) as [Hc|Hc].
    + exists (-32768). repeat split; try lia; reflexivity.
    + assert (Hr : 0 <= Zpos m / 2 ^ (- -8) <= 32768) by (cbn; divmod).
      rewrite cast_short_neg by lia.
      eexists. split; [reflexivity|]. split; [lia|].
      intros Hn _ _. right. replace m with 8388608%positive by lia. reflexivity.
  - assert (Hd : 0 <= Zpos m / 2 ^ (- e) <= 32767).
    { split; [apply Z.div_pos; [lia|apply Z.pow_pos_nonneg; lia]|].
      etransitivity; [apply (div_pow2_le (Zpos m) e 9); lia|].
      change (2 ^ 9) with 512. divmod. }
    rewrite cast_short_neg by lia.
    eexists. split; [reflexivity|]. split; [lia|].
    intros Hn He9 Hgt. assert (e = -9) by lia. subst e.
    left. specialize (Hgt eq_refl). cbn. change (Z.pow_pos 2 9) with 512. divmod.
  - exists (-32768). repeat split; try lia; reflexivity.
Qed.

Lemma clamp_zero (s : bool) : clamp_to_short (S754_zero s) = Some 0.
Proof. destruct s; reflexivity. Qed.

Lemma clamp_infinity (s : bool) :
  clamp_to_short (S754_infinity s) = Some (if s then -32768 else 32767).
Proof. destruct s; reflexivity. Qed.

Lemma clamp_nan : clamp_to_short S754_nan = None.
Proof. reflexivity. Qed.

Lemma clamp_finite_range (s : bool) (m : positive) (e : Z) :
  Zpos m < 2 ^ 24 ->
  exists z, clamp_to_short (S754_finite s m e) = Some z /\ -32768 <= z <= 32767.
Proof.
  intros Hm. destruct s.
  - destruct (clamp_finite_neg m e Hm) as (z & Ez & Hz & _). exists z. split; [exact Ez|lia].
  - destruct (clamp_finite_pos m e Hm) as (z & Ez & Hz & _). exists z. split; [exact Ez|lia].
Qed.

Lemma clamp_round32_range (s : bool) (m1' e1 : Z) :
  0 <= m1' <= 2 ^ 24 ->
  exists z, clamp_to_short (round32_result s m1' e1) = Some z /\ -32768 <= z <= 32767.
Proof.
  intros Hm. unfold round32_result.
  destruct (Z.eqb_spec m1' 0) as [E0|N0].
  - exists 0. rewrite clamp_zero. split; [reflexivity|lia].
  - destruct (Z.eqb_spec m1' (2 ^ 24)) as [E24|N24].
    + destruct (e1 + 1 <=? 104).
      * apply clamp_finite_range. reflexivity.
      * rewrite clamp_infinity. eexists. split; [reflexivity|]. destruct s; lia.
    + destruct (e1 <=? 104).
      * apply clamp_finite_range. rewrite Z2Pos.id by lia. lia.
      * rewrite clamp_infinity. eexists. split; [reflexivity|]. destruct s; lia.
Qed.

(** Decoding: every pattern is a zero, an infinity, a NaN, or a finite
    number whose mantissa has at most 24 bits. *)
Lemma b32_of_bits_cases (b : Z) :
  0 <= b < 2 ^ 32 ->
  b32_of_bits b = S754_zero (2 ^ 31 <=? b) \/
  b32_of_bits b = S754_infinity (2 ^ 31 <=? b) \/
  b32_of_bits b = S754_nan \/
  exists m e, b32_of_bits b = S754_finite (2 ^ 31 <=? b) m e /\
    Zpos m < 2 ^ 24 /\ -149 <= e <= 104 /\
    (e = -149 \/ 2 ^ 23 <= Zpos m) /\
    b = (if 2 ^ 31 <=? b then 2 ^ 31 else 0) +
        (if Zpos m <? 2 ^ 23 then Zpos m
         else 2 ^ 23 * (e + 150) + (Zpos m - 2 ^ 23)).
Proof.
  intros Hb. destruct (b32_fields _ Hb) as (Hm & He & Hdec).
  unfold b32_of_bits.
  set (m := b mod 2 ^ 23) in *. set (e := (b / 2 ^ 23) mod 2 ^ 8) in *.
  destruct (Z.eqb_spec e 0) as [E0|N0].
  - destruct m as [|p|p] eqn:Em; [auto| |lia].
    right; right; right. exists p, (-149). split; [reflexivity|].
    assert (E : (Zpos p <? 2 ^ 23) = true) by (apply Z.ltb_lt; lia).
    rewrite E. repeat split; try lia. 
  - destruct (Z.eqb_spec e 255) as [E255|N255].
    + destruct m; auto.
    + destruct (m + 2 ^ 23) as [|p|p] eqn:Em; [lia| |lia].
      right; right; right. exists p, (e - 150). split; [reflexivity|].
      assert (E : (Zpos p <? 2 ^ 23) = false) by (apply Z.ltb_ge; lia).
      rewrite E. pow2. repeat split; try lia.
Qed.

(** The product of a finite [float] and [32767.0f]. *)
Lemma f32_mul_32767_finite (s : bool) (m : positive) (e : Z) :
  f32_mul (S754_finite s m e) (f32_of_Z 32767)
  = binary_round_aux 24 128 s (Zpos (m * 16776704)) (e + -9) loc_Exact.
Proof. rewrite f32_of_Z_32767. unfold f32_mul. cbn [SFmul]. rewrite xorb_false_r. reflexivity. Qed.

(** No sample but a NaN leaves the range of [short]. *)
Lemma to_fixed_range (x : float32) :
  f32_is_nan x = false ->
  exists z, to_fixed x = Some z /\ -32768 <= z <= 32767.
Proof.
  unfold f32_is_nan. rewrite to_fixed_clamp. unfold f32_val.
  destruct (b32_of_bits_cases _ (f32_bits_range x))
    as [E|[E|[E|(m & e & E & _)]]]; rewrite E; intros Hn.
  - change (f32_mul (S754_zero (2 ^ 31 <=? f32_bits x)) (f32_of_Z 32767))
      with (S754_zero (xorb (2 ^ 31 <=? f32_bits x) false)).
    rewrite clamp_zero. exists 0. split; [reflexivity|lia].
  - change (f32_mul (S754_infinity (2 ^ 31 <=? f32_bits x)) (f32_of_Z 32767))
      with (S754_infinity (xorb (2 ^ 31 <=? f32_bits x) false)).
    rewrite clamp_infinity. eexists. split; [reflexivity|].
    destruct (xorb _ _); lia.
  - discriminate.
  - rewrite f32_mul_32767_finite.
    destruct (binary_round_aux_shape (2 ^ 31 <=? f32_bits x) (m * 16776704) (e + -9))
      as (m1' & Hm1 & ->).
    apply clamp_round32_range.
    pose proof (round32_m1_bound (m * 16776704) (e + -9)). lia.
Qed.

Lemma to_fixed_nan (x : float32) : f32_is_nan x = true -> to_fixed x = None.
Proof.
  unfold f32_is_nan. rewrite to_fixed_clamp.
  destruct (f32_val x); try discriminate. reflexivity.
Qed.

(** A sample of magnitude above one: its product with [32767.0f] is an
    infinity or a normal number of magnitude above 32767. *)
Lemma f32_mul_32767_large (s : bool) (m : positive) (e : Z) :
  2 ^ 23 <= Zpos m < 2 ^ 24 -> -23 <= e -> (e = -23 -> 2 ^ 23 < Zpos m) ->
  f32_mul (S754_finite s m e) (f32_of_Z 32767) = S754_infinity s \/
  exists q e',
    f32_mul (S754_finite s m e) (f32_of_Z 32767) = S754_finite s q e' /\
    2 ^ 23 <= Zpos q < 2 ^ 24 /\ -9 <= e' /\ (e' = -9 -> 16776704 < Zpos q).
Proof.
  intros Hm He Hm1. rewrite f32_mul_32767_finite.
  destruct (binary_round_aux_shape s (m * 16776704) (e + -9)) as (m1' & Hr & ->).
  set (P := (m * 16776704)%positive) in *.
  assert (HP : Zpos P = Zpos m * 16776704) by reflexivity.
  assert (Hsh : (Zpos P < 2 ^ 47 /\ round32_shift P (e + -9) = 23) \/
                (2 ^ 47 <= Zpos P /\ round32_shift P (e + -9) = 24)).
  { unfold round32_shift. destruct (Z_lt_le_dec (Zpos P) (2 ^ 47)) as [Hlt|Hge].
    - left. split; [exact Hlt|].
      rewrite (digits2_unique P 47) by (change (2 ^ (47 - 1)) with 70368744177664; pow2; lia).
      lia.
    - right. split; [exact Hge|].
      rewrite (digits2_unique P 48)
        by (change (2 ^ (48 - 1)) with (2 ^ 47);
            change (2 ^ 48) with 281474976710656; pow2; lia).
      lia. }
  unfold round32_result.
  destruct Hsh as [[HP47 Esh]|[HP47 Esh]]; rewrite Esh in *.
  - change (2 ^ 47) with 140737488355328 in HP47.
    assert (Hq : 2 ^ 23 <= Zpos P / 2 ^ 23 < 2 ^ 24) by divmod.
    assert (Hq1 : e = -23 -> 16776704 < Zpos P / 2 ^ 23) by (intros E; specialize (Hm1 E); divmod).
    destruct (Z.eqb_spec m1' 0) as [E0|N0]; [pow2; lia|].
    destruct (Z.eqb_spec m1' (2 ^ 24)) as [E24|N24].
    + destruct (e + -9 + 23 + 1 <=? 104); [|left; reflexivity].
      right. eexists _, _. split; [reflexivity|].
      change (Zpos (Z.to_pos (2 ^ 23))) with 8388608. pow2. lia.
    + destruct (e + -9 + 23 <=? 104); [|left; reflexivity].
      right. eexists _, _. split; [reflexivity|].
      rewrite Z2Pos.id by lia. lia.
  - change (2 ^ 47) with 140737488355328 in HP47.
    assert (Hq : 2 ^ 23 <= Zpos P / 2 ^ 24 < 2 ^ 24) by divmod.
    destruct (Z.eqb_spec m1' 0) as [E0|N0]; [pow2; lia|].
    destruct (Z.eqb_spec m1' (2 ^ 24)) as [E24|N24].
    + destruct (e + -9 + 24 + 1 <=? 104); [|left; reflexivity].
      right. eexists _, _. split; [reflexivity|].
      change (Zpos (Z.to_pos (2 ^ 23))) with 8388608. pow2. lia.
    + destruct (e + -9 + 24 <=? 104); [|left; reflexivity].
      right. eexists _, _. split; [reflexivity|].
      rewrite Z2Pos.id by lia. lia.
Qed.

Lemma f32_val_one : f32_val f32_one = S754_finite false 8388608 (-23).
Proof. reflexivity. Qed.

Lemma f32_val_minus_one : f32_val f32_minus_one = S754_finite true 8388608 (-23).
Proof. reflexivity. Qed.

(** [1.0f < x] *)
Lemma f32_above_one (x : float32) :
  f32_ltb f32_one x = true ->
  f32_val x = S754_infinity false \/
  exists m e, f32_val x = S754_finite false m e /\
    2 ^ 23 <= Zpos m < 2 ^ 24 /\ -23 <= e /\ (e = -23 -> 2 ^ 23 < Zpos m).
Proof.
  unfold f32_ltb. rewrite f32_val_one. unfold f32_val.
  destruct (b32_of_bits_cases _ (f32_bits_range x))
    as [E|[E|[E|(m & e & E & Hm & He & Hn & _)]]]; rewrite E.
  - destruct (2 ^ 31 <=? f32_bits x); discriminate.
  - destruct (2 ^ 31 <=? f32_bits x); [discriminate|]. auto.
  - discriminate.
  - destruct (2 ^ 31 <=? f32_bits x); [discriminate|].
    rewrite SFltb_pos_pos. intros Hlt. right. exists m, e. split; [reflexivity|].
    destruct (Z.compare_spec (-23) e) as [Ee|Ee|Ee]; try discriminate.
    + subst e. apply Z.ltb_lt in Hlt. lia.
    + lia.
Qed.

Lemma to_fixed_above (x : float32) :
  f32_ltb f32_one x = true -> to_fixed x = Some 32767.
Proof.
  intros Hx. rewrite to_fixed_clamp.
  destruct (f32_above_one x Hx) as [->|(m & e & -> & Hm & He & Hm1)].
  - reflexivity.
  - destruct (f32_mul_32767_large false m e Hm He Hm1)
      as [->|(q & e' & -> & Hq & He' & Hq1)]; [reflexivity|].
    destruct (clamp_finite_pos q e' (proj2 Hq)) as (z & -> & _ & Hz).
    f_equal. apply Hz. lia.
Qed.

(** A negative sample of magnitude at least 32768 gives [-32768]. *)
Lemma clamp_finite_neg_low (m : positive) (e : Z) :
  2 ^ 23 <= Zpos m < 2 ^ 24 -> -8 <= e ->
  clamp_to_short (S754_finite true m e) = Some (-32768).
Proof.
  intros Hm He. unfold clamp_to_short. rewrite f32_of_Z_32767, f32_of_Z_m32768.
  change (SFltb (S754_finite false 16776704 (-9)) (S754_finite true m e))
    with false. cbv iota.
  rewrite SFltb_neg_neg.
  destruct (Z.compare_spec e (-8)) as [Ee|Ee|Ee]; [|lia|reflexivity].
  subst e. destruct (Z.ltb_spec 8388608 (Zpos m)) as [Hc|Hc]; [reflexivity|].
  replace m with 8388608%positive by (pow2; lia). reflexivity.
Qed.

(** From [1 + 257 * 2^-23] upward in magnitude, the product with
    [32767.0f] has magnitude at least 32768. *)
Lemma f32_mul_32767_huge (s : bool) (m : positive) (e : Z) :
  2 ^ 23 <= Zpos m < 2 ^ 24 -> -23 <= e -> (e = -23 -> 2 ^ 23 + 257 <= Zpos m) ->
  f32_mul (S754_finite s m e) (f32_of_Z 32767) = S754_infinity s \/
  exists q e',
    f32_mul (S754_finite s m e) (f32_of_Z 32767) = S754_finite s q e' /\
    2 ^ 23 <= Zpos q < 2 ^ 24 /\ -8 <= e'.
Proof.
  intros Hm He Hm1. rewrite f32_mul_32767_finite.
  destruct (binary_round_aux_shape s (m * 16776704) (e + -9)) as (m1' & Hr & ->).
  set (P := (m * 16776704)%positive) in *.
  assert (HP : Zpos P = Zpos m * 16776704) by reflexivity.
  assert (Hsh : (Zpos P < 2 ^ 47 /\ round32_shift P (e + -9) = 23) \/
                (2 ^ 47 <= Zpos P /\ round32_shift P (e + -9) = 24)).
  { unfold round32_shift. destruct (Z_lt_le_dec (Zpos P) (2 ^ 47)) as [Hlt|Hge].
    - left. split; [exact Hlt|].
      rewrite (digits2_unique P 47) by (change (2 ^ (47 - 1)) with 70368744177664; pow2; lia).
      lia.
    - right. split; [exact Hge|].
      rewrite (digits2_unique P 48)
        by (change (2 ^ (48 - 1)) with (2 ^ 47);
            change (2 ^ 48) with 281474976710656; pow2; lia).
      lia. }
  unfold round32_result.
  destruct Hsh as [[HP47 Esh]|[HP47 Esh]]; rewrite Esh in *.
  - change (2 ^ 47) with 140737488355328 in HP47.
    assert (Hq : 2 ^ 23 <= Zpos P / 2 ^ 23 < 2 ^ 24) by divmod.
    assert (He22 : -22 <= e).
    { destruct (Z.eq_dec e (-23)) as [E|]; [|lia]. specialize (Hm1 E). pow2. lia. }
    destruct (Z.eqb_spec m1' 0) as [E0|N0]; [pow2; lia|].
    destruct (Z.eqb_spec m1' (2 ^ 24)) as [E24|N24].
    + destruct (e + -9 + 23 + 1 <=? 104); [|left; reflexivity].
      right. eexists _, _. split; [reflexivity|].
      change (Zpos (Z.to_pos (2 ^ 23))) with 8388608. pow2. lia.
    + destruct (e + -9 + 23 <=? 104); [|left; reflexivity].
      right. eexists _, _. split; [reflexivity|].
      rewrite Z2Pos.id by lia. lia.
  - change (2 ^ 47) with 140737488355328 in HP47.
    assert (Hq : 2 ^ 23 <= Zpos P / 2 ^ 24 < 2 ^ 24) by divmod.
    destruct (Z.eqb_spec m1' 0) as [E0|N0]; [pow2; lia|].
    destruct (Z.eqb_spec m1' (2 ^ 24)) as [E24|N24].
    + destruct (e + -9 + 24 + 1 <=? 104); [|left; reflexivity].
      right. eexists _, _. split; [reflexivity|].
      change (Zpos (Z.to_pos (2 ^ 23))) with 8388608. pow2. lia.
    + destruct (e + -9 + 24 <=? 104); [|left; reflexivity].
      right. eexists _, _. split; [reflexivity|].
      rewrite Z2Pos.id by lia. lia.
Qed.

Lemma knee_checked : forallb knee_check (seq 1 256) = true.
Proof. vm_compute. reflexivity. Qed.

Lemma knee_check_sound (j : nat) :
  knee_check j = true ->
  to_fixed (f32_of_bits (0xBF800000 + Z.of_nat j))
  = Some (if Z.of_nat j <? 256 then -32767 else -32768).
Proof.
  unfold knee_check.
  destruct (to_fixed (f32_of_bits (0xBF800000 + Z.of_nat j))) as [a|]; [|discriminate].
  intros E. apply Z.eqb_eq in E. subst a. reflexivity.
Qed.

Lemma to_fixed_knee (x : float32) :
  0xBF800000 < f32_bits x <= 0xBF800100 ->
  to_fixed x = Some (if f32_bits x <? 0xBF800100 then -32767 else -32768).
Proof.
  intros Hb.
  assert (Hin : In (Z.to_nat (f32_bits x - 0xBF800000)) (seq 1 256))
    by (apply in_seq; lia).
  pose proof (knee_check_sound _
    (proj1 (forallb_forall knee_check (seq 1 256)) knee_checked _ Hin)) as Hall.
  rewrite Z2Nat.id in Hall by lia.
  replace (0xBF800000 + (f32_bits x - 0xBF800000)) with (f32_bits x) in Hall by lia.
  rewrite f32_of_bits_bits in Hall. rewrite Hall. f_equal.
  destruct (Z.ltb_spec (f32_bits x - 0xBF800000) 256);
    destruct (Z.ltb_spec (f32_bits x) 0xBF800100); try lia; reflexivity.
Qed.

(** [x < -1.0f], with the pattern of [x] *)
Lemma f32_below_minus_one_bits (x : float32) :
  f32_ltb x f32_minus_one = true ->
  0xBF800000 < f32_bits x /\
  (f32_val x = S754_infinity true \/
   exists m e, f32_val x = S754_finite true m e /\
     2 ^ 23 <= Zpos m < 2 ^ 24 /\ -23 <= e /\
     f32_bits x = 2 ^ 31 + 2 ^ 23 * (e + 150) + (Zpos m - 2 ^ 23)).
Proof.
  unfold f32_ltb. rewrite f32_val_minus_one. unfold f32_val.
  pose proof (f32_bits_range x) as Hb.
  destruct (b32_fields _ Hb) as (Hf1 & Hf2 & Hdec).
  destruct (b32_of_bits_cases _ Hb)
    as [E|[E|[E|(m & e & E & Hm & He & Hn & Hbits)]]]; rewrite E.
  - destruct (2 ^ 31 <=? f32_bits x); discriminate.
  - destruct (2 ^ 31 <=? f32_bits x) eqn:Es; [|discriminate]. intros _.
    split; [|auto]. revert E. unfold b32_of_bits. rewrite Es.
    destruct ((f32_bits x / 2 ^ 23) mod 2 ^ 8 =? 0) eqn:E0.
    { destruct (f32_bits x mod 2 ^ 23); discriminate. }
    destruct (Z.eqb_spec ((f32_bits x / 2 ^ 23) mod 2 ^ 8) 255) as [E255|N255].
    + intros _. pow2. lia.
    + destruct (f32_bits x mod 2 ^ 23 + 2 ^ 23); discriminate.
  - discriminate.
  - destruct (2 ^ 31 <=? f32_bits x); [|discriminate].
    rewrite SFltb_neg_neg. intros Hlt.
    assert (Hcmp : -23 < e \/ (e = -23 /\ 2 ^ 23 < Zpos m)).
    { destruct (Z.compare_spec e (-23)) as [Ee|Ee|Ee]; try discriminate.
      - subst e. apply Z.ltb_lt in Hlt. lia.
      - lia. }
    assert (Hnorm : 2 ^ 23 <= Zpos m) by lia.
    assert (Eb : (Zpos m <? 2 ^ 23) = false) by (apply Z.ltb_ge; lia).
    rewrite Eb in Hbits.
    split; [pow2; lia|]. right. exists m, e. split; [reflexivity|].
    pow2. lia.
Qed.

(** Below [-1.0f] the result is [-32767] down to the pattern [0xBF8000FF]
    and [-32768] from [0xBF800100], which is [-(1 + 2^-15)], onward. *)
Lemma to_fixed_below_exact (x : float32) :
  f32_ltb x f32_minus_one = true ->
  to_fixed x = Some (if f32_bits x <? 0xBF800100 then -32767 else -32768).
Proof.
  intros Hx. destruct (f32_below_minus_one_bits x Hx) as (Hlo & Hv).
  destruct (Z_le_gt_dec (f32_bits x) 0xBF800100) as [Hle|Hgt].
  - apply to_fixed_knee. lia.
  - assert (E : (f32_bits x <? 0xBF800100) = false) by (apply Z.ltb_ge; lia).
    rewrite E, to_fixed_clamp.
    destruct Hv as [->|(m & e & -> & Hm & He & Hbits)]; [reflexivity|].
    assert (Hm1 : e = -23 -> 2 ^ 23 + 257 <= Zpos m) by (intros ->; pow2; lia).
    destruct (f32_mul_32767_huge true m e Hm He Hm1)
      as [->|(q & e' & -> & Hq & He')]; [reflexivity|].
    apply clamp_finite_neg_low; assumption.
Qed.

(** C7, as stated, fails just below [-1.0f]: the pattern [0xBF800001]
    (about -1.0000001) lies outside the range, its product
    (about -32767.004) passes the clamp at -32768.0 and truncates to
    -32767, which is not the boundary value -32768. *)
Lemma to_fixed_below_not_saturated :
  f32_ltb (f32_of_bits 0xBF800001) f32_minus_one = true /\
  to_fixed (f32_of_bits 0xBF800001) = Some (-32767) /\
  to_fixed (f32_of_bits 0xBF800001) <> Some (-32768).
Proof.
  split; [vm_compute; reflexivity|]. split; [vm_compute; reflexivity|].
  intros E. vm_compute in E. discriminate E.
Qed.

(** C7, amended: [to_fixed] multiplies by 32767.0, clamps the product to
    [-32768.0, 32767.0] and truncates.  No sample but a NaN (for which the
    cast has no defined result) leaves the range of a 16-bit integer, so
    nothing wraps; every sample above 1.0 gives exactly 32767; a sample
    below -1.0 gives -32767 while it is above -(1 + 2^-15) (pattern
    [0xBF800100]) and exactly -32768 from there downward. *)
Theorem to_fixed_saturates (x : float32) :
  to_fixed x = clamp_to_short (f32_mul (f32_val x) (f32_of_Z 32767)) /\
  (f32_is_nan x = true -> to_fixed x = None) /\
  (f32_is_nan x = false ->
   exists z, to_fixed x = Some z /\ -32768 <= z <= 32767) /\
  (f32_ltb f32_one x = true -> to_fixed x = Some 32767) /\
  (f32_ltb x f32_minus_one = true ->
   to_fixed x = Some (if f32_bits x <? 0xBF800100 then -32767 else -32768)).
Proof.
  split; [reflexivity|]. split; [apply to_fixed_nan|].
  split; [apply to_fixed_range|].
  split; [apply to_fixed_above|apply to_fixed_below_exact].
Qed.

(** A quiet NaN and the samples 0.5, 2.0 and -2.0. *)
Lemma to_fixed_saturates_witness :
  to_fixed (f32_of_bits 0x7FC00000) = None /\
  (exists z, to_fixed (f32_of_bits 0x3F000000) = Some z /\ -32768 <= z <= 32767) /\
  to_fixed (f32_of_bits 0x40000000) = Some 32767 /\
  to_fixed (f32_of_bits 0xC0000000) = Some (-32768).
Proof.
  split; [|split; [|split]].
  - apply (proj1 (proj2 (to_fixed_saturates (f32_of_bits 0x7FC00000)))).
    vm_compute. reflexivity.
  - apply (proj1 (proj2 (proj2 (to_fixed_saturates (f32_of_bits 0x3F000000))))).
    vm_compute. reflexivity.
  - apply (proj1 (proj2 (proj2 (proj2
             (to_fixed_saturates (f32_of_bits 0x40000000)))))).
    vm_compute. reflexivity.
  - apply (proj2 (proj2 (proj2 (proj2
             (to_fixed_saturates (f32_of_bits 0xC0000000)))))).
    vm_compute. reflexivity.
Defined.

(* ===================================================================== *)
(** * The stream adapter *)
(* ===================================================================== *)

Section AdapterFacts.

Context {S : Sonic} {H : Host}.

(** The loop, one turn unrolled. *)
Lemma drain_step (s : sonicStream) (channels max_samples : Z)
    (st : Z * list Z) (e : env) :
  drain s channels max_samples st e =
  let '((samples_read, d), e') := read_short s (max_samples - fst st) e in
  if 0 <? samples_read then
    let total := fst st + samples_read in
    let buf' := store_at (snd st) (to_unsigned (fst st * channels)) d in
    if max_samples <=? total then ((total, buf'), e')
    else drain s channels max_samples (total, buf') e'
  else (st, e').
Proof.
  funelim (drain s channels max_samples st e); cbn [fst snd].
  - rewrite e2, e1. reflexivity.
  - rewrite e2, Hpos. cbv zeta. rewrite e1. reflexivity.
  - rewrite e2, Hpos. cbv zeta. rewrite Hlt. reflexivity.
Qed.

Lemma to_int_le (z : Z) : 0 <= z -> to_int z <= z.
Proof.
  intros Hz. unfold to_int.
  pose proof (Z.mod_le (z + 2 ^ 31) (2 ^ 32)) as Hm. pow2. lia.
Qed.

Lemma firstn_repeat {A : Type} (a : A) (n : nat) :
  firstn n (repeat a n) = repeat a n.
Proof.
  rewrite <- (repeat_length a n) at 1. apply firstn_all.
Qed.



Lemma format_changed_iff (this : dsp_speedy) (chunk : audio_chunk) :
  format_changed this chunk = true <-> chunk_format chunk <> bound_format this.
Proof.
  unfold format_changed, chunk_format, bound_format.
  rewrite !orb_true_iff, !negb_true_iff, !Z.eqb_neq. split.
  - intros Hd E. injection E as E1 E2 E3. tauto.
  - intros Hn.
    destruct (Z.eq_dec (get_srate chunk) (m_sample_rate this)) as [E1|]; [|tauto].
    destruct (Z.eq_dec (get_channels chunk) (m_channels this)) as [E2|]; [|tauto].
    destruct (Z.eq_dec (get_channel_config chunk) (m_channel_config this)) as [E3|]; [|tauto].
    exfalso. apply Hn. congruence.
Qed.

Lemma format_unchanged_iff (this : dsp_speedy) (chunk : audio_chunk) :
  format_changed this chunk = false <-> chunk_format chunk = bound_format this.
Proof.
  pose proof (format_changed_iff this chunk) as Hc.
  destruct (format_changed this chunk).
  - split; [discriminate|]. intros E. exfalso. apply (proj1 Hc eq_refl E).
  - split; [|reflexivity]. intros _.
    unfold chunk_format, bound_format in *.
    destruct (Z.eq_dec (get_srate chunk) (m_sample_rate this)) as [E1|N1];
    [destruct (Z.eq_dec (get_channels chunk) (m_channels this)) as [E2|N2];
     [destruct (Z.eq_dec (get_channel_config chunk) (m_channel_config this)) as [E3|N3];
      [congruence|]|]|];
    exfalso; assert (false = true) by (apply Hc; congruence); discriminate.
Qed.

Lemma calls_after_teardown (this : dsp_speedy) (e : env) :
  calls (after_teardown this e) = calls e ++ teardown_calls this.
Proof.
  unfold after_teardown, teardown_calls. destruct (m_stream this); simpl.
  - reflexivity.
  - rewrite app_nil_r. reflexivity.
Qed.

Lemma cleanup_stream_spec (this : dsp_speedy) (e : env) :
  cleanup_stream this e = (with_stream None this, after_teardown this e) \/
  (m_stream this = None /\ cleanup_stream this e = (this, e) /\ after_teardown this e = e).
Proof.
  unfold cleanup_stream, after_teardown. destruct (m_stream this) eqn:E.
  - left. reflexivity.
  - right. auto.
Qed.

(** The format block when the format differs: tear down, create, and on
    success set the stream up and take the chunk's format. *)
Lemma check_format_changed (this : dsp_speedy) (chunk : audio_chunk) (e : env) :
  format_changed this chunk = true ->
  check_format this chunk e =
  let e0 := after_teardown this e in
  let rate := get_srate chunk in
  let ch := get_channels chunk in
  match sonicCreateStream rate ch (the_world e0) with
  | (None, w) =>
      ((false, with_stream None this),
       mkEnv w (calls e ++ teardown_calls this ++ [CreateStream rate ch None]))
  | (Some s, w) =>
      ((true, with_format rate ch (get_channel_config chunk)
                (with_stream (Some s) this)),
       mkEnv (setup_world s (m_config this) w)
             (calls e ++ teardown_calls this ++
              CreateStream rate ch (Some s) :: setup_calls s (m_config this)))
  end.
Proof.
  intros Hc. unfold check_format. rewrite Hc. cbv zeta.
  unfold bind at 1.
  assert (Hcl : cleanup_stream this e = (with_stream None this, after_teardown this e)
                \/ (m_stream this = None /\ cleanup_stream this e = (this, e)
                    /\ after_teardown this e = e)) by apply cleanup_stream_spec.
  assert (Hw : forall r, with_stream r (with_stream None this) = with_stream r this)
    by (intros r; destruct this; reflexivity).
  assert (Hthis : exists this0, cleanup_stream this e = (this0, after_teardown this e)
            /\ (forall r, with_stream r this0 = with_stream r this)
            /\ m_config this0 = m_config this).
  { destruct Hcl as [E|(E1 & E2 & E3)].
    - exists (with_stream None this). auto.
    - exists this. rewrite E2, E3. auto. }
  destruct Hthis as (this0 & -> & Hws & Hcfg).
  pose proof (calls_after_teardown this e) as Hcalls.
  set (e0 := after_teardown this e) in *.
  unfold init_stream, bind, create_stream.
  destruct (sonicCreateStream (get_srate chunk) (get_channels chunk) (the_world e0))
    as [[s|] w] eqn:Ecr.
  - rewrite Hws. cbn [m_config with_stream].
    unfold call, ret, setup_world, setup_calls. cbn [the_world calls negb].
    rewrite Hcalls.
    destruct (nonlinear_enabled (m_config this)); cbn [the_world calls negb];
      repeat rewrite <- app_assoc; reflexivity.
  - rewrite Hws. unfold ret. cbn [negb]. rewrite Hcalls, <- app_assoc. reflexivity.
Qed.

Lemma check_format_same (this : dsp_speedy) (chunk : audio_chunk) (e : env) :
  format_changed this chunk = false ->
  check_format this chunk e = ((true, this), e).
Proof. intros Hc. unfold check_format. rewrite Hc. reflexivity. Qed.

Lemma read_short_spec (s : sonicStream) (n : Z) (e : env) :
  calls (snd (read_short s n e))
    = calls e ++ [ReadShort s n (fst (fst (read_short s n e)))] /\
  fst (read_short s n e) = fst (sonicReadShortFromStream s n (the_world e)).
Proof.
  unfold read_short.
  destruct (sonicReadShortFromStream s n (the_world e)) as [r w]. auto.
Qed.

(** What the loop leaves: the log grows by reads only, [total_read] grows
    by the frames they returned, the number of reads is bounded by the
    room left, and an engine that honours [max_frames] never takes
    [total_read] above [max_samples]. *)
Lemma drain_spec (s : sonicStream) (channels max_samples : Z)
    (st : Z * list Z) (e : env) :
  exists l,
    calls (snd (drain s channels max_samples st e)) = calls e ++ l /\
    fst (fst (drain s channels max_samples st e)) = fst st + frames_read l /\
    0 <= frames_read l /\
    reads l <= Z.max 0 (max_samples - fst st) + 1 /\
    (read_within_max ->
     fst (fst (drain s channels max_samples st e)) <= Z.max (fst st) max_samples).
Proof.
  funelim (drain s channels max_samples st e); cbn [fst snd].
  - pose proof (read_short_spec s (max_samples - total_read) e) as [Hc Hr].
    rewrite e2 in Hc, Hr. cbn [fst snd] in Hc, Hr.
    pose proof (proj1 (Z.ltb_ge _ _) e1) as Hle0.
    exists [ReadShort s (max_samples - total_read) samples_read].
    split; [exact Hc|]. unfold frames_read, reads. cbn. lia.
  - pose proof (read_short_spec s (max_samples - total_read) e) as [Hc Hr].
    rewrite e2 in Hc, Hr. cbn [fst snd] in Hc, Hr.
    pose proof (proj1 (Z.ltb_lt _ _) Hpos) as Hgt0.
    exists [ReadShort s (max_samples - total_read) samples_read].
    split; [exact Hc|]. unfold frames_read, reads. cbn.
    repeat split; try lia.
    intros Hcontract.
    pose proof (Hcontract s (max_samples - total_read) (the_world e)) as Hle.
    rewrite <- Hr in Hle. cbn [fst] in Hle. lia.
  - pose proof (read_short_spec s (max_samples - total_read) e) as [Hc Hr].
    rewrite e2 in Hc, Hr. cbn [fst snd] in Hc, Hr.
    pose proof (proj1 (Z.ltb_lt _ _) Hpos) as Hgt0.
    pose proof (proj1 (Z.leb_gt _ _) Hlt) as Hroom.
    destruct H0 as (l & Hl & Ht & Hf & Hn & Hb). cbn [fst snd] in *.
    exists (ReadShort s (max_samples - total_read) samples_read :: l).
    split; [rewrite Hl, Hc, <- app_assoc; reflexivity|].
    change (frames_read (ReadShort s (max_samples - total_read) samples_read :: l))
      with (Z.max 0 samples_read + frames_read l).
    change (reads (ReadShort s (max_samples - total_read) samples_read :: l))
      with (Z.of_nat (Datatypes.S (length (filter is_read l)))).
    unfold reads in Hn.
    repeat split; try lia.
    intros Hcontract. specialize (Hb Hcontract). lia.
Qed.

Lemma write_short_spec (s : sonicStream) (d : list Z) (n : Z) (e : env) :
  calls (snd (write_short s d n e))
    = calls e ++ [WriteShort s n (fst (write_short s d n e))].
Proof.
  unfold write_short.
  destruct (sonicWriteShortToStream s d n (the_world e)) as [r w]. reflexivity.
Qed.

(** The work on a bound stream: it returns [true]; it touches the working
    buffers only; it logs one write and then reads; the chunk keeps its
    rate and layout and holds either what it held, or the frames read, or
    silence of the original length. *)
Lemma process_spec (this : dsp_speedy) (chunk : audio_chunk) (s : sonicStream)
    (e : env) :
  let r := process this chunk s e in
  let this' := snd (fst (fst r)) in
  let chunk' := snd (fst r) in
  let max_samples := to_int (get_sample_count chunk * 4) in
  fst (fst (fst r)) = true /\
  m_config this' = m_config this /\ m_stream this' = m_stream this /\
  bound_format this' = bound_format this /\
  chunk_format chunk' = chunk_format chunk /\
  exists l,
    calls (snd r) = calls e ++ l /\
    reads l <= Z.max 0 max_samples + 1 /\
    0 <= frames_read l /\
    (read_within_max -> frames_read l <= Z.max 0 max_samples) /\
    (chunk' = chunk \/
     get_sample_count chunk' = get_sample_count chunk \/
     get_sample_count chunk' = frames_read l).
Proof.
  intros r this' chunk' max_samples.
  assert (Hr : r = process this chunk s e) by reflexivity. clearbody r.
  unfold process in Hr. cbv zeta in Hr.
  set (inbuf := map to_short _) in Hr.
  unfold bind at 1 in Hr.
  pose proof (write_short_spec s (m_input_buffer (with_input_buffer inbuf this))
                (to_int (get_sample_count chunk)) e) as Hw.
  destruct (write_short s (m_input_buffer (with_input_buffer inbuf this))
              (to_int (get_sample_count chunk)) e) as [ok e1].
  cbn [fst snd] in Hw.
  destruct (ok =? 0).
  - unfold ret in Hr. subst r this' chunk'. cbn [fst snd]. repeat split.
    exists [WriteShort s (to_int (get_sample_count chunk)) ok].
    split; [exact Hw|]. unfold reads, frames_read. cbn. repeat split; try lia.
  - unfold bind in Hr. fold max_samples in Hr.
    set (out0 := resize 0 _ _) in Hr.
    destruct (drain_spec s (get_channels chunk) max_samples (0, out0) e1)
      as (l & Hl & Ht & Hf & Hn & Hb).
    destruct (drain s (get_channels chunk) max_samples (0, out0) e1)
      as [[total_read out] e2].
    cbn [fst snd] in Hl, Ht, Hn, Hb.
    assert (Hlog : calls e2 =
              calls e ++ WriteShort s (to_int (get_sample_count chunk)) ok :: l)
      by (rewrite Hl, Hw, <- app_assoc; reflexivity).
    assert (Hreads : reads (WriteShort s (to_int (get_sample_count chunk)) ok :: l)
              = reads l) by reflexivity.
    assert (Hframes : frames_read (WriteShort s (to_int (get_sample_count chunk)) ok :: l)
              = frames_read l) by reflexivity.
    destruct (0 <? total_read); unfold ret in Hr; subst r this' chunk';
      cbn [fst snd]; repeat split;
      exists (WriteShort s (to_int (get_sample_count chunk)) ok :: l);
      (split; [exact Hlog|]); rewrite Hreads, Hframes;
      repeat split; try lia.
    + intros Hc. specialize (Hb Hc). lia.
    + right. right. cbn. lia.
    + intros Hc. specialize (Hb Hc). lia.
    + right. left. reflexivity.
Qed.

(** [on_chunk] past the default test, on a stream that is bound to the
    chunk's format. *)
Lemma on_chunk_bound (this : dsp_speedy) (chunk : audio_chunk) (e : env) :
  is_default (m_config this) = false ->
  format_changed this chunk = false ->
  on_chunk this chunk e =
  match m_stream this with
  | None => ((true, this, chunk), e)
  | Some s => process this chunk s e
  end.
Proof.
  intros Hd Hf. unfold on_chunk. rewrite Hd. unfold bind.
  rewrite check_format_same by exact Hf. cbn [negb].
  destruct (m_stream this); reflexivity.
Qed.

(** [on_chunk] past the default test, on a chunk of another format. *)
Lemma on_chunk_changed (this : dsp_speedy) (chunk : audio_chunk) (e : env) :
  is_default (m_config this) = false ->
  format_changed this chunk = true ->
  on_chunk this chunk e =
  let rate := get_srate chunk in
  let ch := get_channels chunk in
  match sonicCreateStream rate ch (the_world (after_teardown this e)) with
  | (None, w) =>
      ((true, with_stream None this, chunk),
       mkEnv w (calls e ++ teardown_calls this ++ [CreateStream rate ch None]))
  | (Some s, w) =>
      process (with_format rate ch (get_channel_config chunk)
                 (with_stream (Some s) this)) chunk s
        (mkEnv (setup_world s (m_config this) w)
               (calls e ++ teardown_calls this ++
                CreateStream rate ch (Some s) :: setup_calls s (m_config this)))
  end.
Proof.
  intros Hd Hf. unfold on_chunk. rewrite Hd. unfold bind.
  rewrite check_format_changed by exact Hf. cbv zeta.
  destruct (sonicCreateStream (get_srate chunk) (get_channels chunk)
              (the_world (after_teardown this e))) as [[s|] w]; reflexivity.
Qed.

Lemma on_chunk_pass_default (this : dsp_speedy) (chunk : audio_chunk) (e : env) :
  is_default (m_config this) = true ->
  on_chunk this chunk e = ((true, this, chunk), e).
Proof.
  intros Hd. unfold on_chunk. rewrite Hd. reflexivity.
Qed.

(** C1: with the record at its defaults [on_chunk] returns [true] and
    changes nothing: the chunk, the object with its three working buffers,
    the engine's state and the log of engine calls are what they were, so
    no stream is created and no sample is converted. *)
Theorem on_chunk_default (this : dsp_speedy) (chunk : audio_chunk) (e : env) :
  is_default (m_config this) = true ->
  on_chunk this chunk e = ((true, this, chunk), e).
Proof. apply on_chunk_pass_default. Qed.


(** C3: with a non-default record and a stream bound by the format block,
    when the write is accepted and the drain loop reads no frame, the chunk
    comes back with [sample_count * channels] samples, all zero, as
    [sample_count] frames at the rate, channel count and layout it came
    with. *)
Theorem on_chunk_silence (this : dsp_speedy) (chunk : audio_chunk) (e : env)
    (this1 : dsp_speedy) (e1 : env) (s : sonicStream) (status : Z) (e2 : env) :
  let sample_count := get_sample_count chunk in
  let channels := get_channels chunk in
  let max_samples := to_int (sample_count * 4) in
  is_default (m_config this) = false ->
  check_format this chunk e = ((true, this1), e1) ->
  m_stream this1 = Some s ->
  write_short s
    (map to_short (firstn (Z.to_nat (sample_count * channels)) (get_samples chunk)))
    (to_int sample_count) e1 = (status, e2) ->
  status <> 0 ->
  fst (fst (drain s channels max_samples
              (0, resize 0 (to_unsigned (max_samples * channels))
                         (m_output_buffer this1)) e2)) = 0 ->
  fst (fst (fst (on_chunk this chunk e))) = true /\
  snd (fst (on_chunk this chunk e)) =
    mkChunk (repeat audio_zero (Z.to_nat (sample_count * channels)))
            sample_count (get_srate chunk) channels (get_channel_config chunk).
Proof.
  intros sample_count channels max_samples Hd Hcf Hs Hw Hst Hdr.
  assert (Hon : exists this' e3,
            on_chunk this chunk e =
            ((true, this',
              mkChunk (repeat audio_zero (Z.to_nat (sample_count * channels)))
                      sample_count (get_srate chunk) channels
                      (get_channel_config chunk)), e3)).
  { unfold on_chunk. rewrite Hd. unfold bind at 1. rewrite Hcf. cbn [negb].
    rewrite Hs. unfold process. cbv zeta. unfold bind at 1.
    cbn [m_input_buffer with_input_buffer].
    fold sample_count channels. rewrite Hw.
    apply Z.eqb_neq in Hst. rewrite Hst.
    unfold bind. fold max_samples.
    cbn [m_output_buffer with_input_buffer].
    destruct (drain s channels max_samples
                (0, resize 0 (to_unsigned (max_samples * channels))
                           (m_output_buffer this1)) e2) as [[total_read out] e3].
    cbn [fst snd] in Hdr. subst total_read.
    change (0 <? 0) with false. cbv iota. unfold ret.
    unfold set_data. rewrite firstn_repeat. eexists _, _. reflexivity. }
  destruct Hon as (this' & e3 & ->). split; reflexivity.
Qed.

(** C4, amended: when the record is not at its defaults (with the defaults
    [on_chunk] returns before the format test) and the chunk's format
    differs from the remembered one, [on_chunk] destroys the stream it has,
    if any, and then calls [sonicCreateStream] with the chunk's rate and
    channel count.  If that fails the object is left without a stream, the
    chunk is returned as it came and nothing else is called.  If it gives
    a stream [s], speed, pitch, rate and volume of the record are set on
    [s], the nonlinear speedup is enabled with [nonlinear_factor] exactly
    when [nonlinear_enabled] holds, and the work goes on with [s] bound to
    the chunk's format; so after the call the object has either no stream
    or the fresh stream together with the chunk's format. *)
Theorem on_chunk_rebinds (this : dsp_speedy) (chunk : audio_chunk) (e : env) :
  is_default (m_config this) = false ->
  chunk_format chunk <> bound_format this ->
  let rate := get_srate chunk in
  let ch := get_channels chunk in
  let r := on_chunk this chunk e in
  match sonicCreateStream rate ch (the_world (after_teardown this e)) with
  | (None, w) =>
      r = ((true, with_stream None this, chunk),
           mkEnv w (calls e ++ teardown_calls this ++ [CreateStream rate ch None]))
  | (Some s, w) =>
      let rebuilt :=
        calls e ++ teardown_calls this ++
        CreateStream rate ch (Some s) :: setup_calls s (m_config this) in
      r = process (with_format rate ch (get_channel_config chunk)
                     (with_stream (Some s) this)) chunk s
            (mkEnv (setup_world s (m_config this) w) rebuilt) /\
      m_stream (snd (fst (fst r))) = Some s /\
      bound_format (snd (fst (fst r))) = chunk_format chunk /\
      exists l, calls (snd r) = rebuilt ++ l
  end.
Proof.
  intros Hd Hf rate ch r. apply format_changed_iff in Hf.
  assert (Hr : r = on_chunk this chunk e) by reflexivity. clearbody r.
  rewrite on_chunk_changed in Hr by assumption. cbv zeta in Hr. fold rate ch in Hr.
  destruct (sonicCreateStream rate ch (the_world (after_teardown this e)))
    as [[s|] w]; [|exact Hr].
  cbv zeta. split; [exact Hr|].
  match type of Hr with _ = process ?t ?c ?s ?e0 =>
    destruct (process_spec t c s e0) as (_ & _ & Hs & Hb & _ & l & Hl & _)
  end.
  rewrite <- Hr in Hs, Hb, Hl. cbn [calls] in Hl.
  split; [exact Hs|]. split; [exact Hb|]. exists l. exact Hl.
Qed.

(** C10: when the format block fails to create a stream, the object keeps
    the format it remembered and has no stream; from then on a chunk that
    carries that remembered format is returned as it came, with no engine
    call at all, so no new stream is attempted for it. *)
Theorem on_chunk_after_failed_create (this : dsp_speedy) (chunk : audio_chunk)
    (e : env) :
  is_default (m_config this) = false ->
  chunk_format chunk <> bound_format this ->
  fst (sonicCreateStream (get_srate chunk) (get_channels chunk)
         (the_world (after_teardown this e))) = None ->
  let this1 := snd (fst (fst (on_chunk this chunk e))) in
  snd (fst (on_chunk this chunk e)) = chunk /\
  m_stream this1 = None /\
  bound_format this1 = bound_format this /\
  forall chunk2 e2,
    chunk_format chunk2 = bound_format this ->
    on_chunk this1 chunk2 e2 = ((true, this1, chunk2), e2).
Proof.
  intros Hd Hf Hcr this1. apply format_changed_iff in Hf.
  assert (H1 : this1 = snd (fst (fst (on_chunk this chunk e)))) by reflexivity.
  clearbody this1. rewrite on_chunk_changed in * by assumption. cbv zeta in *.
  destruct (sonicCreateStream (get_srate chunk) (get_channels chunk)
              (the_world (after_teardown this e))) as [[s|] w];
    [discriminate Hcr|].
  cbn [fst snd] in *. subst this1.
  split; [reflexivity|]. split; [reflexivity|]. split; [reflexivity|].
  intros chunk2 e2 Hsame.
  destruct (is_default (m_config (with_stream None this))) eqn:Hd1.
  - apply on_chunk_pass_default. exact Hd1.
  - rewrite on_chunk_bound; [reflexivity|exact Hd1|].
    apply format_unchanged_iff. exact Hsame.
Qed.

End AdapterFacts.

(* ===================================================================== *)
(** * The adapter on the small engine *)
(* ===================================================================== *)

Lemma flood_read_within_max : @read_within_max Flood.engine.
Proof.
  intros s n w. cbn. unfold Flood.read. cbn [fst]. lia.
Defined.

Lemma on_chunk_default_witness :
  on_chunk (Fifo.fresh default_config) Fifo.mono2 Fifo.start
  = ((true, Fifo.fresh default_config, Fifo.mono2), Fifo.start).
Proof. apply on_chunk_default. vm_compute. reflexivity. Defined.


Lemma flood_reaches_the_cap :
  frames_read
    (calls (snd (on_chunk (Flood.fresh Fifo.faster) Fifo.mono2 Flood.start))) = 8 /\
  get_sample_count
    (snd (fst (on_chunk (Flood.fresh Fifo.faster) Fifo.mono2 Flood.start))) = 8.
Proof. split; vm_compute; reflexivity. Qed.


Lemma on_chunk_silence_witness :
  fst (fst (fst (on_chunk (Fifo.fresh Fifo.faster) Fifo.mono1 Fifo.start))) = true /\
  snd (fst (on_chunk (Fifo.fresh Fifo.faster) Fifo.mono1 Fifo.start)) =
    mkChunk (repeat audio_zero (Z.to_nat (1 * 1))) 1 44100 1 4.
Proof.
  pose (r1 := check_format (Fifo.fresh Fifo.faster) Fifo.mono1 Fifo.start).
  pose (r2 := @write_short Fifo.engine tt
                (map to_short (firstn (Z.to_nat (1 * 1)) (get_samples Fifo.mono1)))
                (to_int 1) (snd r1)).
  apply (on_chunk_silence (Fifo.fresh Fifo.faster) Fifo.mono1 Fifo.start
           (snd (fst r1)) (snd r1) tt (fst r2) (snd r2)).
  - vm_compute. reflexivity.
  - reflexivity.
  - reflexivity.
  - reflexivity.
  - vm_compute. discriminate.
  - vm_compute. reflexivity.
Defined.

(** C4, as stated, fails: a fresh object with the default record gets a
    mono chunk at 44100 Hz, whose format differs from the remembered
    (0, 0, 0), and makes no engine call, though the engine would have
    given a stream for that format. *)
Lemma default_record_never_rebinds :
  is_default default_config = true /\
  chunk_format Fifo.mono1 <> bound_format (Fifo.fresh default_config) /\
  fst (sonicCreateStream (get_srate Fifo.mono1) (get_channels Fifo.mono1)
         (the_world Fifo.start)) = Some tt /\
  calls (snd (on_chunk (Fifo.fresh default_config) Fifo.mono1 Fifo.start)) = [] /\
  m_stream (snd (fst (fst (on_chunk (Fifo.fresh default_config) Fifo.mono1
                             Fifo.start)))) = None.
Proof.
  split; [vm_compute; reflexivity|]. split; [vm_compute; discriminate|].
  split; [reflexivity|]. split; reflexivity.
Qed.

(** The engine accepts the mono chunk and refuses the six-channel one. *)
Lemma on_chunk_rebinds_witness :
  (exists l,
     calls (snd (on_chunk (Fifo.fresh Fifo.faster) Fifo.mono1 Fifo.start))
     = (@CreateStream Fifo.engine 44100 1 (Some tt)
        :: @setup_calls Fifo.engine tt Fifo.faster) ++ l) /\
  on_chunk (Fifo.fresh Fifo.faster) Fifo.surround1 Fifo.start
  = ((true, Fifo.fresh Fifo.faster, Fifo.surround1),
     mkEnv (the_world Fifo.start) [@CreateStream Fifo.engine 48000 6 None]).
Proof.
  split.
  - pose proof (on_chunk_rebinds (Fifo.fresh Fifo.faster) Fifo.mono1 Fifo.start) as Hr.
    assert (Hd : is_default (m_config (Fifo.fresh Fifo.faster)) = false)
      by (vm_compute; reflexivity).
    assert (Hf : chunk_format Fifo.mono1 <> bound_format (Fifo.fresh Fifo.faster))
      by (vm_compute; discriminate).
    specialize (Hr Hd Hf). cbv zeta in Hr.
    change (sonicCreateStream (get_srate Fifo.mono1) (get_channels Fifo.mono1)
              (the_world (after_teardown (Fifo.fresh Fifo.faster) Fifo.start)))
      with (Some tt, Fifo.mkFifo [] 1) in Hr.
    cbv iota beta in Hr. destruct Hr as (_ & _ & _ & l & Hl).
    exists l. exact Hl.
  - pose proof (on_chunk_rebinds (Fifo.fresh Fifo.faster) Fifo.surround1 Fifo.start) as Hr.
    assert (Hd : is_default (m_config (Fifo.fresh Fifo.faster)) = false)
      by (vm_compute; reflexivity).
    assert (Hf : chunk_format Fifo.surround1 <> bound_format (Fifo.fresh Fifo.faster))
      by (vm_compute; discriminate).
    specialize (Hr Hd Hf). cbv zeta in Hr.
    change (sonicCreateStream (get_srate Fifo.surround1) (get_channels Fifo.surround1)
              (the_world (after_teardown (Fifo.fresh Fifo.faster) Fifo.start)))
      with (@None unit, Fifo.mkFifo [] 0) in Hr.
    cbv iota beta in Hr. exact Hr.
Defined.

(** A stream bound to mono, a six-channel chunk the engine refuses, and
    mono again: the second mono chunk passes through with no engine call. *)
Lemma on_chunk_after_failed_create_witness :
  let this1 :=
    snd (fst (fst (on_chunk Fifo.bound_mono Fifo.surround1 Fifo.after_mono))) in
  snd (fst (on_chunk Fifo.bound_mono Fifo.surround1 Fifo.after_mono))
    = Fifo.surround1 /\
  m_stream this1 = None /\
  bound_format this1 = (44100, 1, 4) /\
  forall e2, on_chunk this1 Fifo.mono2 e2 = ((true, this1, Fifo.mono2), e2).
Proof.
  destruct (on_chunk_after_failed_create Fifo.bound_mono Fifo.surround1
              Fifo.after_mono) as (Hc & Hs & Hb & Hnext).
  - vm_compute. reflexivity.
  - vm_compute. discriminate.
  - reflexivity.
  - cbv zeta. split; [exact Hc|]. split; [exact Hs|]. split; [exact Hb|].
    intros e2. apply Hnext. reflexivity.
Defined.

(* ===================================================================== *)
(** * Presets, further, and the configuration dialog *)
(* ===================================================================== *)

Lemma byte_at_app (d extra : list byte) (i : nat) :
  (i < length d)%nat -> byte_at (d ++ extra) i = byte_at d i.
Proof. intros Hi. unfold byte_at. apply app_nth1. exact Hi. Qed.

Lemma floats_at_app (d extra : list byte) (i : nat) :
  (4 * i + 3 < length d)%nat -> floats_at (d ++ extra) i = floats_at d i.
Proof.
  intros Hi. unfold floats_at. rewrite !byte_at_app by lia. reflexivity.
Qed.

(** X1: bytes after the 21st are ignored: a blob that is long enough reads
    as its first 21 bytes do, so a blob with trailing bytes is accepted. *)
Theorem parse_preset_ignores_tail (owner : GUID) (d extra : list byte)
    (c : dsp_speedy_config) :
  preset_size <= Z.of_nat (length d) ->
  parse_preset (mkPreset owner (d ++ extra)) c = parse_preset (mkPreset owner d) c.
Proof.
  intros Hd. unfold preset_size, sizeof_float, sizeof_bool in Hd.
  unfold parse_preset. cbn [get_owner get_data].
  destruct (negb (guid_eqb owner g_dsp_speedy_guid)); [reflexivity|].
  unfold get_data_size. cbn [get_data]. rewrite length_app.
  assert (E1 : (preset_size <=? Z.of_nat (length d + length extra)) = true)
    by (apply Z.leb_le; unfold preset_size, sizeof_float, sizeof_bool; lia).
  assert (E2 : (preset_size <=? Z.of_nat (length d)) = true)
    by (apply Z.leb_le; unfold preset_size, sizeof_float, sizeof_bool; lia).
  rewrite E1, E2.
  rewrite !floats_at_app by lia.
  unfold bool_at. rewrite byte_at_app; [reflexivity|].
  unfold sizeof_float. change (Z.to_nat (4 * 5)) with 20%nat. lia.
Qed.

Lemma parse_preset_ignores_tail_witness :
  parse_preset (mkPreset g_dsp_speedy_guid
                  (get_data (make_preset Fifo.faster) ++ [x07; x07])) default_config
  = Fifo.faster.
Proof.
  rewrite parse_preset_ignores_tail by (vm_compute; discriminate).
  vm_compute. reflexivity.
Defined.

Lemma bool_byte_bool_at (d : list byte) (i : nat) :
  byte_at d i = x00 \/ byte_at d i = x01 ->
  bool_byte (bool_at d i) = byte_at d i.
Proof. unfold bool_at. intros [-> | ->]; reflexivity. Qed.

(** X2: writing back a record read from an accepted blob whose flag byte
    is 0 or 1, the two values of a [bool], gives the first 21 bytes of
    the blob; a blob of exactly 21 bytes comes back as it was. *)
Theorem make_parse_preset (p : dsp_preset) (c : dsp_speedy_config) :
  get_owner p = g_dsp_speedy_guid ->
  preset_size <= get_data_size p ->
  byte_at (get_data p) 20 = x00 \/ byte_at (get_data p) 20 = x01 ->
  get_data (make_preset (parse_preset p c)) = firstn 21 (get_data p) /\
  (get_data_size p = preset_size -> make_preset (parse_preset p c) = p).
Proof.
  intros Ho Hs Hb. destruct p as [owner d]. cbn [get_owner get_data] in *. subst owner.
  unfold get_data_size, preset_size, sizeof_float, sizeof_bool in *.
  cbn [get_data] in *.
  unfold parse_preset. cbn [get_owner get_data].
  change (negb (guid_eqb g_dsp_speedy_guid g_dsp_speedy_guid)) with false. cbv iota.
  unfold get_data_size, preset_size, sizeof_float, sizeof_bool. cbn [get_data].
  assert (E : (4 * 5 + 1 <=? Z.of_nat (length d)) = true) by (apply Z.leb_le; lia).
  rewrite E. change (Z.to_nat (4 * 5)) with 20%nat.
  do 21 (destruct d as [|? d]; [cbn [length] in Hs; lia|]).
  pose proof (bool_byte_bool_at _ 20 Hb) as Hflag.
  split.
  - unfold make_preset.
    cbn [get_data speed pitch rate volume nonlinear_factor nonlinear_enabled
         float_bytes floats_at byte_at nth fb0 fb1 fb2 fb3 app Nat.mul Nat.add
         firstn].
    rewrite Hflag. reflexivity.
  - intros Hlen. destruct d; [|cbn [length] in Hlen; lia].
    unfold make_preset. f_equal.
    cbn [speed pitch rate volume nonlinear_factor nonlinear_enabled float_bytes
         floats_at byte_at nth fb0 fb1 fb2 fb3 app Nat.mul Nat.add].
    rewrite Hflag. reflexivity.
Qed.

Lemma make_parse_preset_witness :
  make_preset (parse_preset zero_blob Fifo.faster) = zero_blob.
Proof.
  apply (proj2 (make_parse_preset zero_blob Fifo.faster eq_refl
                  ltac:(vm_compute; discriminate) (or_introl eq_refl))).
  reflexivity.
Defined.

(** ** The configuration dialog *)

Lemma in_range_seq (lo n : nat) (pos : Z) :
  Z.of_nat lo <= pos < Z.of_nat lo + Z.of_nat n ->
  In pos (map Z.of_nat (seq lo n)).
Proof.
  intros Hp. apply in_map_iff. exists (Z.to_nat pos). split; [lia|].
  apply in_seq. lia.
Qed.

Lemma slider_values_checked :
  forallb slider_value_check (map Z.of_nat (seq 25 376)) = true.
Proof. vm_compute. reflexivity. Qed.

Lemma slider_positions_checked :
  forallb slider_pos_check (map Z.of_nat (seq 25 376)) = true.
Proof. vm_compute. reflexivity. Qed.

(** X3: a slider position from 25 to 400 gives a value that is strictly
    positive, not below 0.25 and not above 4.0, and that is 1.0 exactly
    at position 100. *)
Theorem slider_value_in_range (pos : Z) :
  25 <= pos <= 400 ->
  f32_positive (slider_value pos) = true /\
  f32_ltb (slider_value pos) (f32_of_bits 0x3E800000) = false /\
  f32_ltb (f32_of_bits 0x40800000) (slider_value pos) = false /\
  (slider_value pos = kDefaultSpeed <-> pos = 100).
Proof.
  intros Hp.
  pose proof (proj1 (forallb_forall slider_value_check _) slider_values_checked
                pos (in_range_seq 25 376 pos ltac:(lia))) as Hc.
  unfold slider_value_check in Hc.
  rewrite !andb_true_iff, !negb_true_iff in Hc.
  destruct Hc as (((H1 & H2) & H3) & H4).
  split; [exact H1|]. split; [exact H2|]. split; [exact H3|].
  apply eqb_prop in H4. split.
  - intros E. apply Z.eqb_eq. rewrite <- H4. rewrite E. reflexivity.
  - intros E. apply f32_bits_inj. apply Z.eqb_eq.
    change (f32_bits kDefaultSpeed) with 0x3F800000. rewrite H4.
    apply Z.eqb_eq. exact E.
Qed.

Lemma slider_value_in_range_witness :
  f32_positive (slider_value 25) = true.
Proof. apply (slider_value_in_range 25). lia. Defined.

(** X4: the position [WM_INITDIALOG] computes from a value that came from
    position [pos] is [pos] again, except at fourteen positions, where the
    product falls just short and the cast gives [pos - 1]. *)
Theorem slider_pos_of_value (pos : Z) :
  25 <= pos <= 400 ->
  slider_pos (slider_value pos)
  = Some (if existsb (Z.eqb pos) drifting_positions then pos - 1 else pos).
Proof.
  intros Hp.
  pose proof (proj1 (forallb_forall slider_pos_check _) slider_positions_checked
                pos (in_range_seq 25 376 pos ltac:(lia))) as Hc.
  unfold slider_pos_check in Hc.
  destruct (slider_pos (slider_value pos)) as [q|]; [|discriminate].
  apply Z.eqb_eq in Hc. rewrite Hc. reflexivity.
Qed.

Lemma slider_pos_of_value_witness :
  slider_pos (slider_value 53) = Some 52 /\ slider_pos (slider_value 54) = Some 54.
Proof.
  split.
  - apply (slider_pos_of_value 53). lia.
  - apply (slider_pos_of_value 54). lia.
Defined.

Lemma slider_value_checked_at (pos : Z) :
  25 <= pos <= 400 -> slider_value_check pos = true.
Proof.
  intros Hp.
  exact (proj1 (forallb_forall slider_value_check _) slider_values_checked
           pos (in_range_seq 25 376 pos ltac:(lia))).
Qed.

Lemma slider_value_positive (pos : Z) :
  25 <= pos <= 400 -> f32_positive (slider_value pos) = true.
Proof.
  intros Hp. pose proof (slider_value_checked_at pos Hp) as Hc.
  unfold slider_value_check in Hc. rewrite !andb_true_iff in Hc. tauto.
Qed.

(** An invariant of the config behind the window carries over to every
    preset handed to the callback. *)
Lemma dialog_run_invariant (P : dsp_speedy_config -> Prop) :
  (forall c m, P c -> from_user m ->
     exists c', dlg_data (DialogProc (Some c) m) = Some c' /\ P c' /\
       forall p, dlg_preset (DialogProc (Some c) m) = Some p -> p = make_preset c') ->
  forall msgs c, P c -> Forall from_user msgs ->
  forall p, In p (snd (dialog_run (Some c) msgs)) ->
  exists c', P c' /\ p = make_preset c'.
Proof.
  intros Hstep msgs. induction msgs as [|m msgs IH]; intros c Hc Hms p Hin.
  - destruct Hin.
  - inversion Hms as [|? ? Hm Hms']. subst.
    destruct (Hstep c m Hc Hm) as (c' & Ed & Hc' & Hp).
    cbn [dialog_run] in Hin. rewrite Ed in Hin.
    specialize (IH c' Hc' Hms' p).
    destruct (dialog_run (Some c') msgs) as [d ps]. cbn [snd] in *.
    destruct (dlg_preset (DialogProc (Some c) m)) as [q|].
    + destruct Hin as [<-|Hin].
      * exists c'. split; [exact Hc'|]. apply Hp. reflexivity.
      * apply IH. exact Hin.
    + apply IH. exact Hin.
Qed.

Lemma g_show_config_popup_run (preset : dsp_preset) (msgs : list dialog_message) :
  g_show_config_popup preset msgs
  = snd (dialog_run (Some (parse_preset preset default_config)) msgs).
Proof.
  unfold g_show_config_popup. cbn [dialog_run DialogProc dlg_data dlg_preset].
  destruct (dialog_run (Some (parse_preset preset default_config)) msgs).
  reflexivity.
Qed.

(** X5: the dialog keeps the multipliers positive: opened on a preset whose
    record has positive multipliers, with scroll positions inside the
    slider ranges, it hands the callback only presets of this component, of
    the fixed size, whose records have positive multipliers. *)
Theorem popup_presets_positive (preset : dsp_preset)
    (msgs : list dialog_message) (p : dsp_preset) (c : dsp_speedy_config) :
  multipliers_positive (parse_preset preset default_config) = true ->
  Forall from_user msgs ->
  In p (g_show_config_popup preset msgs) ->
  get_owner p = g_dsp_speedy_guid /\
  get_data_size p = preset_size /\
  multipliers_positive (parse_preset p c) = true.
Proof.
  intros H0 Hms Hin. rewrite g_show_config_popup_run in Hin.
  destruct (dialog_run_invariant (fun c => multipliers_positive c = true))
    with (msgs := msgs) (c := parse_preset preset default_config) (p := p)
    as (c' & Hc' & ->); try assumption.
  - clear. intros c m Hc Hm. unfold multipliers_positive in Hc.
    rewrite !andb_true_iff in Hc. destruct Hc as ((((Hs & Hp) & Hr) & Hv) & Hf).
    destruct m as [c0|sp pp|[clicked checked| | | |]|]; cbn in Hm |- *;
      try contradiction.
    + destruct Hm as [Hsp Hpp]. eexists. split; [reflexivity|]. split.
      * unfold multipliers_positive. cbn [speed pitch rate volume nonlinear_factor].
        rewrite !slider_value_positive by lia. rewrite Hr, Hv, Hf. reflexivity.
      * intros p E. injection E as <-. reflexivity.
    + destruct clicked.
      * eexists. split; [reflexivity|]. split.
        -- unfold multipliers_positive. cbn [speed pitch rate volume nonlinear_factor].
           rewrite Hs, Hp, Hr, Hv, Hf. reflexivity.
        -- intros p E. injection E as <-. reflexivity.
      * eexists. split; [reflexivity|]. split.
        -- unfold multipliers_positive. rewrite Hs, Hp, Hr, Hv, Hf. reflexivity.
        -- intros p E. discriminate E.
    + eexists. split; [reflexivity|]. split; [reflexivity|].
      intros p E. injection E as <-. reflexivity.
    + exists c. split; [reflexivity|]. split.
      * unfold multipliers_positive. rewrite Hs, Hp, Hr, Hv, Hf. reflexivity.
      * intros p E. discriminate E.
    + exists c. split; [reflexivity|]. split.
      * unfold multipliers_positive. rewrite Hs, Hp, Hr, Hv, Hf. reflexivity.
      * intros p E. discriminate E.
    + exists c. split; [reflexivity|]. split.
      * unfold multipliers_positive. rewrite Hs, Hp, Hr, Hv, Hf. reflexivity.
      * intros p E. discriminate E.
    + exists c. split; [reflexivity|]. split.
      * unfold multipliers_positive. rewrite Hs, Hp, Hr, Hv, Hf. reflexivity.
      * intros p E. discriminate E.
  - split; [reflexivity|]. split; [reflexivity|].
    rewrite parse_preset_make_preset. exact Hc'.
Qed.

(** X6: the dialog never edits rate, volume or nonlinear factor: in every
    preset it hands to the callback they are those of the preset it was
    opened on, or all 1.0 once the reset button was used. *)
Theorem popup_keeps_hidden_fields (preset : dsp_preset)
    (msgs : list dialog_message) (p : dsp_preset) (c : dsp_speedy_config) :
  Forall from_user msgs ->
  In p (g_show_config_popup preset msgs) ->
  hidden_fields (parse_preset p c)
    = hidden_fields (parse_preset preset default_config) \/
  (In (WM_COMMAND IDC_RESET) msgs /\
   hidden_fields (parse_preset p c) = hidden_fields default_config).
Proof.
  intros Hms Hin. rewrite g_show_config_popup_run in Hin.
  set (c0 := parse_preset preset default_config) in *.
  assert (Hgen : forall msgs c1 p,
            Forall from_user msgs ->
            In p (snd (dialog_run (Some c1) msgs)) ->
            hidden_fields (parse_preset p c) = hidden_fields c1 \/
            (In (WM_COMMAND IDC_RESET) msgs /\
             hidden_fields (parse_preset p c) = hidden_fields default_config)).
  { clear. intros msgs. induction msgs as [|m msgs IH]; intros c1 p Hms Hin.
    - destruct Hin.
    - inversion Hms as [|? ? Hm Hms']. subst.
      cbn [dialog_run] in Hin.
      assert (Hstep : exists c',
                dlg_data (DialogProc (Some c1) m) = Some c' /\
                (hidden_fields c' = hidden_fields c1 \/
                 (m = WM_COMMAND IDC_RESET /\ c' = default_config)) /\
                (forall q, dlg_preset (DialogProc (Some c1) m) = Some q ->
                           q = make_preset c')).
      { destruct m as [c2|sp pp|[clicked checked| | | |]|]; cbn in Hm |- *;
          try contradiction.
        - eexists. split; [reflexivity|]. split; [left; reflexivity|].
          intros q E. injection E as <-. reflexivity.
        - destruct clicked.
          + eexists. split; [reflexivity|]. split; [left; reflexivity|].
            intros q E. injection E as <-. reflexivity.
          + eexists. split; [reflexivity|]. split; [left; reflexivity|].
            intros q E. discriminate E.
        - eexists. split; [reflexivity|]. split; [right; split; reflexivity|].
          intros q E. injection E as <-. reflexivity.
        - exists c1. split; [reflexivity|]. split; [left; reflexivity|].
          intros q E. discriminate E.
        - exists c1. split; [reflexivity|]. split; [left; reflexivity|].
          intros q E. discriminate E.
        - exists c1. split; [reflexivity|]. split; [left; reflexivity|].
          intros q E. discriminate E.
        - exists c1. split; [reflexivity|]. split; [left; reflexivity|].
          intros q E. discriminate E. }
      destruct Hstep as (c' & Ed & Hh & Hq). rewrite Ed in Hin.
      specialize (IH c' p Hms').
      destruct (dialog_run (Some c') msgs) as [d ps]. cbn [snd] in *.
      assert (Htail : In p ps ->
                hidden_fields (parse_preset p c) = hidden_fields c1 \/
                (In (WM_COMMAND IDC_RESET) (m :: msgs) /\
                 hidden_fields (parse_preset p c) = hidden_fields default_config)).
      { intros Hp. destruct (IH Hp) as [E|[Hr E]].
        - destruct Hh as [Eh|[-> ->]].
          + left. congruence.
          + right. split; [left; reflexivity|exact E].
        - right. split; [right; exact Hr|exact E]. }
      destruct (dlg_preset (DialogProc (Some c1) m)) as [q|].
      + destruct Hin as [<-|Hin]; [|exact (Htail Hin)].
        rewrite (Hq q eq_refl), parse_preset_make_preset.
        destruct Hh as [Eh|[-> ->]].
        * left. exact Eh.
        * right. split; [left; reflexivity|reflexivity].
      + exact (Htail Hin). }
  exact (Hgen msgs c0 p Hms Hin).
Qed.

Lemma dialog_run_app (msgs1 msgs2 : list dialog_message) :
  forall data,
  dialog_run data (msgs1 ++ msgs2) =
  (fst (dialog_run (fst (dialog_run data msgs1)) msgs2),
   snd (dialog_run data msgs1)
   ++ snd (dialog_run (fst (dialog_run data msgs1)) msgs2)).
Proof.
  induction msgs1 as [|m msgs1 IH]; intros data.
  - cbn [app dialog_run fst snd]. destruct (dialog_run data msgs2). reflexivity.
  - cbn [app dialog_run]. rewrite IH.
    destruct (dialog_run (dlg_data (DialogProc data m)) msgs1) as [d1 p1].
    cbn [fst snd].
    destruct (dlg_preset (DialogProc data m)); reflexivity.
Qed.

(** X7: the dialog has nothing to take back: whatever was done before,
    closing it with Cancel hands the callback exactly the presets that
    closing it with OK does, namely those handed over so far. *)
Theorem popup_cancel_is_ok (preset : dsp_preset) (msgs : list dialog_message) :
  g_show_config_popup preset (msgs ++ [WM_COMMAND IDCANCEL])
    = g_show_config_popup preset msgs /\
  g_show_config_popup preset (msgs ++ [WM_COMMAND IDOK])
    = g_show_config_popup preset msgs.
Proof.
  rewrite !g_show_config_popup_run, !dialog_run_app. cbn [snd].
  destruct (fst (dialog_run (Some (parse_preset preset default_config)) msgs));
    cbn [dialog_run DialogProc dlg_data dlg_preset snd];
    rewrite app_nil_r; split; reflexivity.
Qed.

(** X8: messages handled before [WM_INITDIALOG], while the window has no
    [DialogData], change nothing and hand the callback nothing. *)
Theorem dialog_before_init_is_silent (msgs : list dialog_message) :
  (forall c, ~ In (WM_INITDIALOG c) msgs) ->
  dialog_run None msgs = (None, []).
Proof.
  induction msgs as [|m msgs IH]; intros Hno; [reflexivity|].
  assert (IH' : dialog_run None msgs = (None, []))
    by (apply IH; intros c Hin; apply (Hno c); right; exact Hin).
  destruct m as [c0|sp pp|[clicked checked| | | |]|];
    try (cbn [dialog_run DialogProc dlg_data dlg_preset]; rewrite IH'; reflexivity).
  exfalso. apply (Hno c0). left. reflexivity.
Qed.

Lemma dialog_before_init_is_silent_witness :
  dialog_run None [WM_HSCROLL 150 100; WM_COMMAND IDC_RESET;
                   WM_COMMAND (IDC_NONLINEAR true true)] = (None, []).
Proof.
  apply dialog_before_init_is_silent.
  intros c [E|[E|[E|[]]]]; discriminate E.
Defined.

Lemma popup_presets_positive_witness :
  multipliers_positive
    (parse_preset
       (make_preset (mkConfig (slider_value 150) (slider_value 100)
                              kDefaultRate kDefaultVolume kDefaultNonlinear
                              kDefaultNonlinearFactor))
       default_config) = true.
Proof.
  apply (popup_presets_positive (make_preset Fifo.faster)
           [WM_HSCROLL 150 100; WM_COMMAND IDC_RESET]).
  - vm_compute. reflexivity.
  - repeat constructor; lia.
  - left. vm_compute. reflexivity.
Defined.

Lemma popup_keeps_hidden_fields_witness :
  hidden_fields (parse_preset (make_preset default_config) Fifo.faster)
    = hidden_fields (parse_preset zero_blob default_config) \/
  (In (WM_COMMAND IDC_RESET) [WM_HSCROLL 150 100; WM_COMMAND IDC_RESET] /\
   hidden_fields (parse_preset (make_preset default_config) Fifo.faster)
     = hidden_fields default_config).
Proof.
  apply (popup_keeps_hidden_fields zero_blob
           [WM_HSCROLL 150 100; WM_COMMAND IDC_RESET]).
  - repeat constructor; lia.
  - right. left. vm_compute. reflexivity.
Defined.

(* ===================================================================== *)
(** * The life of the object *)
(* ===================================================================== *)

(** ** Vectors *)

Lemma resize_length {A : Type} (zero : A) (n : Z) (v : list A) :
  length (resize zero n v) = Z.to_nat n.
Proof.
  unfold resize. rewrite length_app, length_firstn, repeat_length. lia.
Qed.

Lemma store_at_length {A : Type} (v : list A) (off : Z) (d : list A) :
  (Z.to_nat off + length d <= length v)%nat ->
  length (store_at v off d) = length v.
Proof.
  intros Hfit. unfold store_at.
  rewrite !length_app, length_firstn, length_skipn. lia.
Qed.

Lemma store_at_firstn {A : Type} (v : list A) (off : Z) (d : list A) :
  (Z.to_nat off + length d <= length v)%nat ->
  firstn (Z.to_nat off + length d) (store_at v off d)
  = firstn (Z.to_nat off) v ++ d.
Proof.
  intros Hfit. unfold store_at. rewrite app_assoc.
  rewrite firstn_app.
  assert (Hlen : length (firstn (Z.to_nat off) v ++ d)
                 = (Z.to_nat off + length d)%nat)
    by (rewrite length_app, length_firstn; lia).
  rewrite Hlen, Nat.sub_diag. cbn [firstn]. rewrite app_nil_r.
  rewrite <- Hlen. apply firstn_all.
Qed.

Lemma store_at_all {A : Type} (v d : list A) :
  length d = length v -> store_at v 0 d = d.
Proof.
  intros Hlen. unfold store_at. change (Z.to_nat 0) with O.
  cbn [firstn Nat.add app]. rewrite Hlen, skipn_all. apply app_nil_r.
Qed.

Lemma to_int_small (z : Z) : - 2 ^ 31 <= z < 2 ^ 31 -> to_int z = z.
Proof.
  intros Hz. unfold to_int. rewrite Z.mod_small; pow2; lia.
Qed.

Lemma to_unsigned_small (z : Z) : 0 <= z < 2 ^ 32 -> to_unsigned z = z.
Proof. intros Hz. unfold to_unsigned. apply Z.mod_small. exact Hz. Qed.

(** A preset of another owner or with a short blob parses to the defaults. *)
Lemma parse_preset_fallback (p : dsp_preset) (c : dsp_speedy_config) :
  get_owner p <> g_dsp_speedy_guid \/ get_data_size p < preset_size ->
  parse_preset p c = default_config.
Proof.
  intros Hp. unfold parse_preset.
  destruct (guid_eqb (get_owner p) g_dsp_speedy_guid) eqn:Eg; cbn [negb].
  - destruct Hp as [Hn|Hs].
    + exfalso. apply Hn. apply guid_eqb_eq. exact Eg.
    + apply Z.leb_gt in Hs. rewrite Hs. reflexivity.
  - reflexivity.
Qed.

Section LifecycleFacts.

Context {S : Sonic} {H : Host}.

(** ** One chunk *)

Lemma created_app (l1 l2 : list sonic_call) :
  created (l1 ++ l2) = created l1 + created l2.
Proof. unfold created. rewrite filter_app, length_app. lia. Qed.

Lemma destroyed_app (l1 l2 : list sonic_call) :
  destroyed (l1 ++ l2) = destroyed l1 + destroyed l2.
Proof. unfold destroyed. rewrite filter_app, length_app. lia. Qed.

(** The drain loop logs reads and nothing else. *)
Lemma drain_only_reads (s : sonicStream) (channels max_samples : Z)
    (st : Z * list Z) (e : env) :
  exists l,
    calls (snd (drain s channels max_samples st e)) = calls e ++ l /\
    created l = 0 /\ destroyed l = 0.
Proof.
  funelim (drain s channels max_samples st e); cbn [fst snd].
  - pose proof (read_short_spec s (max_samples - total_read) e) as [Hc _].
    rewrite e2 in Hc. cbn [fst snd] in Hc. eexists. split; [exact Hc|].
    split; reflexivity.
  - pose proof (read_short_spec s (max_samples - total_read) e) as [Hc _].
    rewrite e2 in Hc. cbn [fst snd] in Hc. eexists. split; [exact Hc|].
    split; reflexivity.
  - pose proof (read_short_spec s (max_samples - total_read) e) as [Hc _].
    rewrite e2 in Hc. cbn [fst snd] in Hc.
    destruct H0 as (l & Hl & Hcr & Hde).
    exists (ReadShort s (max_samples - total_read) samples_read :: l).
    split; [rewrite Hl, Hc, <- app_assoc; reflexivity|].
    split; [exact Hcr|exact Hde].
Qed.

(** [process], with its binds written out. *)
Lemma process_unfold (this : dsp_speedy) (chunk : audio_chunk) (s : sonicStream)
    (e : env) :
  process this chunk s e =
  let sample_count := get_sample_count chunk in
  let channels := get_channels chunk in
  let this1 :=
    with_input_buffer
      (map to_short (firstn (Z.to_nat (sample_count * channels))
                            (get_samples chunk))) this in
  let '(ok, e1) := write_short s (m_input_buffer this1) (to_int sample_count) e in
  if ok =? 0 then ((true, this1, chunk), e1)
  else
    let max_samples := to_int (sample_count * 4) in
    let '((total_read, out), e2) :=
      drain s channels max_samples
            (0, resize 0 (to_unsigned (max_samples * channels))
                       (m_output_buffer this1)) e1 in
    let this2 := with_output_buffer out this1 in
    if 0 <? total_read then
      let audio :=
        store_at (resize audio_zero (to_unsigned (total_read * channels))
                         (m_audio_output this2))
                 0 (map to_float
                        (firstn (Z.to_nat (to_int (total_read * to_int channels)))
                                out)) in
      ((true, with_audio_output audio this2,
        set_data audio total_read channels (get_srate chunk)
                 (get_channel_config chunk)), e2)
    else
      let audio := repeat audio_zero (Z.to_nat (sample_count * channels)) in
      ((true, with_audio_output audio this2,
        set_data audio sample_count channels (get_srate chunk)
                 (get_channel_config chunk)), e2).
Proof.
  unfold process, bind, ret. cbv zeta.
  destruct (write_short s _ (to_int (get_sample_count chunk)) e) as [ok e1].
  destruct (ok =? 0); [reflexivity|].
  destruct (drain s (get_channels chunk) (to_int (get_sample_count chunk * 4)) _ e1)
    as [[total_read out] e2].
  destruct (0 <? total_read); reflexivity.
Qed.

(** [process] neither creates nor destroys a stream. *)
Lemma process_log (this : dsp_speedy) (chunk : audio_chunk) (s : sonicStream)
    (e : env) :
  exists l,
    calls (snd (process this chunk s e)) = calls e ++ l /\
    created l = 0 /\ destroyed l = 0.
Proof.
  rewrite process_unfold. cbv zeta.
  match goal with |- context [write_short s ?b ?n e] =>
    pose proof (write_short_spec s b n e) as Hw;
    destruct (write_short s b n e) as [ok e1] end.
  cbn [fst snd] in Hw.
  destruct (ok =? 0).
  - cbn [snd]. eexists. split; [exact Hw|]. split; reflexivity.
  - match goal with |- context [drain s ?c ?m ?st e1] =>
      destruct (drain_only_reads s c m st e1) as (l & Hl & Hcr & Hde);
      destruct (drain s c m st e1) as [[total_read out] e2] end.
    cbn [snd] in Hl.
    destruct (0 <? total_read); cbn [snd];
      (eexists; split; [rewrite Hl, Hw, <- app_assoc; reflexivity|]);
      rewrite created_app, destroyed_app, Hcr, Hde; split; reflexivity.
Qed.

(** Every path of [on_chunk]. *)
Lemma on_chunk_spec (this : dsp_speedy) (chunk : audio_chunk) (e : env) :
  let r := on_chunk this chunk e in
  let this' := snd (fst (fst r)) in
  let chunk' := snd (fst r) in
  fst (fst (fst r)) = true /\
  m_config this' = m_config this /\
  chunk_format chunk' = chunk_format chunk /\
  (m_stream this' = None -> chunk' = chunk) /\
  (is_default (m_config this) = false -> m_stream this' <> None ->
   bound_format this' = chunk_format chunk) /\
  (read_within_max -> 0 <= get_sample_count chunk ->
   get_sample_count chunk' <= 4 * get_sample_count chunk) /\
  exists l,
    calls (snd r) = calls e ++ l /\
    created l + stream_count this = destroyed l + stream_count this'.
Proof.
  intros r this' chunk'.
  assert (Hmax : 0 <= get_sample_count chunk ->
                 Z.max 0 (to_int (get_sample_count chunk * 4))
                 <= 4 * get_sample_count chunk)
    by (intros Hn; pose proof (to_int_le (get_sample_count chunk * 4)); lia).
  assert (Hcnt : forall t s0 e0,
            read_within_max -> 0 <= get_sample_count chunk ->
            get_sample_count (snd (fst (process t chunk s0 e0)))
            <= 4 * get_sample_count chunk).
  { intros t s0 e0 Hc Hn.
    destruct (process_spec t chunk s0 e0)
      as (_ & _ & _ & _ & _ & l & _ & _ & Hf & Hb & Hcount).
    specialize (Hb Hc). specialize (Hmax Hn).
    destruct Hcount as [-> | [-> | ->]]; lia. }
  assert (Hr : r = on_chunk this chunk e) by reflexivity. clearbody r.
  destruct (is_default (m_config this)) eqn:Hd.
  - rewrite on_chunk_pass_default in Hr by exact Hd. subst r this' chunk'.
    cbn [fst snd]. repeat split; try discriminate; try lia.
    exists []. rewrite app_nil_r. split; reflexivity.
  - destruct (format_changed this chunk) eqn:Hf.
    + rewrite on_chunk_changed in Hr by assumption. cbv zeta in Hr.
      destruct (sonicCreateStream (get_srate chunk) (get_channels chunk)
                  (the_world (after_teardown this e))) as [[s|] w].
      * match type of Hr with _ = process ?t ?c ?s0 ?e0 =>
          destruct (process_spec t c s0 e0) as (Hok & Hcfg & Hs & Hb & Hfmt & _);
          destruct (process_log t c s0 e0) as (l & Hl & Hcr & Hde)
        end.
        rewrite <- Hr in Hok, Hcfg, Hs, Hb, Hfmt, Hl.
        fold this' in Hcfg, Hs, Hb. fold chunk' in Hfmt.
        cbn [m_config m_stream with_format with_stream calls] in Hcfg, Hs, Hl.
        split; [exact Hok|]. split; [exact Hcfg|]. split; [exact Hfmt|].
        split; [rewrite Hs; discriminate|].
        split; [intros _ _; rewrite Hb; reflexivity|].
        split; [subst chunk'; rewrite Hr; apply Hcnt|].
        eexists. split; [rewrite Hl, <- !app_assoc; reflexivity|].
        change (CreateStream (get_srate chunk) (get_channels chunk) (Some s)
                  :: setup_calls s (m_config this))
          with ([CreateStream (get_srate chunk) (get_channels chunk) (Some s)]
                  ++ setup_calls s (m_config this)).
        rewrite !created_app, !destroyed_app, Hcr, Hde.
        change (created [CreateStream (get_srate chunk) (get_channels chunk) (Some s)])
          with 1.
        change (destroyed [CreateStream (get_srate chunk) (get_channels chunk) (Some s)])
          with 0.
        assert (created (setup_calls s (m_config this)) = 0 /\
                destroyed (setup_calls s (m_config this)) = 0) as [-> ->]
          by (unfold setup_calls; destruct (nonlinear_enabled (m_config this));
              split; reflexivity).
        unfold stream_count, has_stream, teardown_calls. rewrite Hs.
        destruct (m_stream this); cbn; lia.
      * subst r this' chunk'. cbn [fst snd m_config with_stream calls].
        split; [reflexivity|]. split; [reflexivity|]. split; [reflexivity|].
        split; [reflexivity|].
        split; [intros _ Hn; exfalso; apply Hn; reflexivity|].
        split; [lia|].
        eexists. split; [reflexivity|].
        rewrite created_app, destroyed_app.
        unfold stream_count, has_stream, teardown_calls. cbn [m_stream with_stream].
        destruct (m_stream this); cbn; lia.
    + rewrite on_chunk_bound in Hr by assumption.
      apply format_unchanged_iff in Hf.
      destruct (m_stream this) as [s|] eqn:Es.
      * destruct (process_spec this chunk s e) as (Hok & Hcfg & Hs & Hb & Hfmt & _).
        destruct (process_log this chunk s e) as (l & Hl & Hcr & Hde).
        rewrite <- Hr in Hok, Hcfg, Hs, Hb, Hfmt, Hl.
        fold this' in Hcfg, Hs, Hb. fold chunk' in Hfmt.
        split; [exact Hok|]. split; [exact Hcfg|]. split; [exact Hfmt|].
        split; [rewrite Hs, Es; discriminate|].
        split; [intros _ _; rewrite Hb; symmetry; exact Hf|].
        split; [subst chunk'; rewrite Hr; apply Hcnt|].
        exists l. split; [exact Hl|].
        unfold stream_count, has_stream. rewrite Hs, Es, Hcr, Hde. reflexivity.
      * subst r this' chunk'. cbn [fst snd].
        repeat split; try reflexivity.
        -- intros _ Hn. exfalso. apply Hn. exact Es.
        -- lia.
        -- exists []. rewrite app_nil_r. split; reflexivity.
Qed.

(** X9: [on_chunk] never reports failure, never changes the parameter
    record and never changes the rate, channel count or layout of the
    chunk; and whenever it leaves the object without a stream, the chunk
    comes back exactly as it went in. *)
Theorem on_chunk_never_fails (this : dsp_speedy) (chunk : audio_chunk) (e : env) :
  fst (fst (fst (on_chunk this chunk e))) = true /\
  m_config (snd (fst (fst (on_chunk this chunk e)))) = m_config this /\
  chunk_format (snd (fst (on_chunk this chunk e))) = chunk_format chunk /\
  (m_stream (snd (fst (fst (on_chunk this chunk e)))) = None ->
   snd (fst (on_chunk this chunk e)) = chunk).
Proof.
  destruct (on_chunk_spec this chunk e) as (H1 & H2 & H3 & H4 & _).
  auto.
Qed.

(** X10: after [on_chunk] with a non-default record, a stream the object
    holds is bound to the format of the chunk just handled. *)
Theorem on_chunk_binds_chunk_format (this : dsp_speedy) (chunk : audio_chunk)
    (e : env) :
  is_default (m_config this) = false ->
  m_stream (snd (fst (fst (on_chunk this chunk e)))) <> None ->
  bound_format (snd (fst (fst (on_chunk this chunk e)))) = chunk_format chunk.
Proof.
  destruct (on_chunk_spec this chunk e) as (_ & _ & _ & _ & H5 & _).
  exact H5.
Qed.

(** X11: an object without a stream that gets a chunk of the format it
    remembers hands it back untouched and calls nothing, whatever its
    record; a new or flushed object does so for a chunk whose rate,
    channel count and layout are all zero. *)
Theorem on_chunk_unbound_same_format (this : dsp_speedy) (chunk : audio_chunk)
    (e : env) :
  m_stream this = None ->
  chunk_format chunk = bound_format this ->
  on_chunk this chunk e = ((true, this, chunk), e).
Proof.
  intros Hs Hf. destruct (is_default (m_config this)) eqn:Hd.
  - apply on_chunk_pass_default. exact Hd.
  - rewrite on_chunk_bound; [rewrite Hs; reflexivity|exact Hd|].
    apply format_unchanged_iff. exact Hf.
Qed.

(** X12: when the engine rejects the write, the chunk comes back as it went
    in, no read is made, and the object keeps its stream and format; only
    its input buffer holds the converted samples. *)
Theorem on_chunk_write_rejected (this : dsp_speedy) (chunk : audio_chunk) (e : env)
    (this1 : dsp_speedy) (e1 : env) (s : sonicStream) (e2 : env) :
  let inbuf :=
    map to_short
        (firstn (Z.to_nat (get_sample_count chunk * get_channels chunk))
                (get_samples chunk)) in
  is_default (m_config this) = false ->
  check_format this chunk e = ((true, this1), e1) ->
  m_stream this1 = Some s ->
  write_short s inbuf (to_int (get_sample_count chunk)) e1 = (0, e2) ->
  on_chunk this chunk e = ((true, with_input_buffer inbuf this1, chunk), e2) /\
  calls e2 = calls e1 ++ [WriteShort s (to_int (get_sample_count chunk)) 0].
Proof.
  intros inbuf Hd Hcf Hs Hw. split.
  - unfold on_chunk. rewrite Hd. unfold bind at 1. rewrite Hcf. cbn [negb].
    rewrite Hs, process_unfold. cbv zeta.
    cbn [m_input_buffer with_input_buffer]. fold inbuf. rewrite Hw. reflexivity.
  - pose proof (write_short_spec s inbuf (to_int (get_sample_count chunk)) e1) as Hl.
    rewrite Hw in Hl. exact Hl.
Qed.

(** ** Flush *)

Lemma flush_unfold (this : dsp_speedy) (e : env) :
  flush this e = (with_format 0 0 0 (with_stream None this), after_teardown this e).
Proof.
  unfold flush, bind, ret, cleanup_stream, after_teardown, call.
  destruct this as [c [s|] r ch l ib ob ao]; reflexivity.
Qed.

(** X13: [flush] leaves the object without a stream and with the format
    (0, 0, 0), keeps the record and the working buffers, destroys the
    stream if there was one and calls nothing else; a second [flush]
    changes nothing and calls nothing. *)
Theorem flush_spec (this : dsp_speedy) (e : env) :
  let this' := fst (flush this e) in
  let e' := snd (flush this e) in
  m_stream this' = None /\ bound_format this' = (0, 0, 0) /\
  m_config this' = m_config this /\
  m_input_buffer this' = m_input_buffer this /\
  m_output_buffer this' = m_output_buffer this /\
  m_audio_output this' = m_audio_output this /\
  calls e' = calls e ++ teardown_calls this /\
  flush this' e' = (this', e').
Proof.
  cbv zeta. rewrite !flush_unfold. cbn [fst snd].
  repeat split. apply calls_after_teardown.
Qed.

(** X14: after a [flush], the first thing [on_chunk] does with a non-default
    record and a chunk whose format is not (0, 0, 0) is to create a
    stream for the chunk's rate and channel count, also when the chunk has
    the very format the object was bound to before the flush. *)
Theorem flush_forces_rebuild (this : dsp_speedy) (chunk : audio_chunk) (e : env) :
  is_default (m_config this) = false ->
  chunk_format chunk <> (0, 0, 0) ->
  let this1 := fst (flush this e) in
  let e1 := snd (flush this e) in
  exists result l,
    calls (snd (on_chunk this1 chunk e1))
    = calls e1 ++
      CreateStream (get_srate chunk) (get_channels chunk) result :: l.
Proof.
  intros Hd Hf. cbv zeta. rewrite flush_unfold. cbn [fst snd].
  set (this1 := with_format 0 0 0 (with_stream None this)).
  set (e1 := after_teardown this e).
  assert (Hd1 : is_default (m_config this1) = false) by exact Hd.
  assert (Hf1 : format_changed this1 chunk = true)
    by (apply format_changed_iff; exact Hf).
  rewrite on_chunk_changed by assumption. cbv zeta.
  change (after_teardown this1 e1) with e1.
  change (teardown_calls this1) with (@nil sonic_call).
  destruct (sonicCreateStream (get_srate chunk) (get_channels chunk) (the_world e1))
    as [[s|] w].
  - match goal with |- context [process ?t ?c ?s0 ?e0] =>
      destruct (process_log t c s0 e0) as (l & Hl & _) end.
    cbn [calls] in Hl. rewrite Hl. cbn [app].
    eexists _, _. rewrite <- app_assoc. reflexivity.
  - cbn [snd calls app]. eexists _, _. reflexivity.
Qed.

(** ** Runs of host calls *)

Lemma host_run_chunk (this : dsp_speedy) (chunk : audio_chunk)
    (rest : list host_call) (e : env) :
  host_run this (OnChunk chunk :: rest) e =
  let r := on_chunk this chunk e in
  let r' := host_run (snd (fst (fst r))) rest (snd r) in
  ((fst (fst r'), snd (fst r) :: snd (fst r')), snd r').
Proof.
  cbn [host_run]. unfold bind, ret.
  destruct (on_chunk this chunk e) as [[[ok this1] chunk1] e1]. cbn [fst snd].
  destruct (host_run this1 rest e1) as [[this2 outs] e2]. reflexivity.
Qed.

Lemma host_run_flush (this : dsp_speedy) (rest : list host_call) (e : env) :
  host_run this (Flush :: rest) e =
  host_run (fst (flush this e)) rest (snd (flush this e)).
Proof.
  cbn [host_run]. unfold bind at 1. destruct (flush this e). reflexivity.
Qed.

Lemma teardown_balance (this : dsp_speedy) :
  created (teardown_calls this) = 0 /\
  destroyed (teardown_calls this) = stream_count this.
Proof.
  unfold stream_count, has_stream, teardown_calls.
  destruct (m_stream this); split; reflexivity.
Qed.

(** What a run of host calls keeps: the record; the balance of streams
    created and destroyed; one chunk out for each chunk in, of the same
    format. *)
Lemma host_run_spec (l : list host_call) :
  forall (this : dsp_speedy) (e : env),
  let r := host_run this l e in
  let this' := fst (fst r) in
  let outs := snd (fst r) in
  m_config this' = m_config this /\
  map chunk_format outs = map chunk_format (chunks_in l) /\
  (read_within_max ->
   Forall (fun c => 0 <= get_sample_count c) (chunks_in l) ->
   total_frames outs <= 4 * total_frames (chunks_in l)) /\
  exists log,
    calls (snd r) = calls e ++ log /\
    created log + stream_count this = destroyed log + stream_count this'.
Proof.
  induction l as [|[chunk| |] rest IH]; intros this e.
  - cbn. repeat split; try lia. exists []. rewrite app_nil_r. split; reflexivity.
  - intros r this' outs.
    assert (Hr : r = host_run this (OnChunk chunk :: rest) e) by reflexivity.
    clearbody r. rewrite host_run_chunk in Hr. cbv zeta in Hr.
    destruct (on_chunk_spec this chunk e)
      as (_ & Hcfg & Hfmt & _ & _ & Hcnt & l1 & Hl1 & Hb1).
    set (r1 := on_chunk this chunk e) in *.
    specialize (IH (snd (fst (fst r1))) (snd r1)). cbv zeta in IH.
    destruct IH as (Hcfg2 & Hfmt2 & Hcnt2 & l2 & Hl2 & Hb2).
    set (r2 := host_run (snd (fst (fst r1))) rest (snd r1)) in *.
    subst r this' outs. cbn [fst snd chunks_in map].
    split; [congruence|]. split; [congruence|]. split.
    + intros Hc Hall. inversion Hall as [|c0 l0 Hn Hrest]; subst.
      specialize (Hcnt Hc Hn). specialize (Hcnt2 Hc Hrest).
      cbn [total_frames fold_right]. unfold total_frames in Hcnt2. lia.
    + exists (l1 ++ l2). split; [rewrite Hl2, Hl1, app_assoc; reflexivity|].
      rewrite created_app, destroyed_app. lia.
  - intros r this' outs.
    assert (Hr : r = host_run this (Flush :: rest) e) by reflexivity.
    clearbody r. rewrite host_run_flush, flush_unfold in Hr. cbn [fst snd] in Hr.
    specialize (IH (with_format 0 0 0 (with_stream None this)) (after_teardown this e)).
    cbv zeta in IH. destruct IH as (Hcfg2 & Hfmt2 & Hcnt2 & l2 & Hl2 & Hb2).
    subst r this' outs. cbn [chunks_in].
    split; [exact Hcfg2|]. split; [exact Hfmt2|]. split; [exact Hcnt2|].
    exists (teardown_calls this ++ l2).
    split; [rewrite Hl2, calls_after_teardown, app_assoc; reflexivity|].
    rewrite created_app, destroyed_app.
    change (stream_count (with_format 0 0 0 (with_stream None this))) with 0 in Hb2.
    destruct (teardown_balance this) as [-> ->]. lia.
  - intros r this' outs. subst r this' outs. cbn [host_run chunks_in].
    unfold bind at 1, on_endoftrack at 1, ret at 1. apply IH.
Qed.

(** X15: a whole life of the object, from its construction through any
    sequence of chunks, flushes and track ends to its destruction, destroys
    exactly as many streams as were created for it; between two host calls
    at most one stream is alive. *)
Theorem lifecycle_destroys_what_it_creates (preset : dsp_preset)
    (l : list host_call) (w : world) :
  let r := host_run (dsp_speedy_new preset) l (mkEnv w []) in
  let r' := dsp_speedy_delete (fst (fst r)) (snd r) in
  created (calls (snd r)) = destroyed (calls (snd r)) + stream_count (fst (fst r)) /\
  0 <= stream_count (fst (fst r)) <= 1 /\
  created (calls (snd r')) = destroyed (calls (snd r')) /\
  m_stream (fst r') = None.
Proof.
  cbv zeta.
  destruct (host_run_spec l (dsp_speedy_new preset) (mkEnv w []))
    as (_ & _ & _ & log & Hl & Hb).
  set (r := host_run (dsp_speedy_new preset) l (mkEnv w [])) in *.
  cbn [calls app] in Hl. rewrite Hl.
  change (stream_count (dsp_speedy_new preset)) with 0 in Hb.
  split; [lia|]. split; [unfold stream_count; destruct (has_stream _); lia|].
  unfold dsp_speedy_delete.
  destruct (cleanup_stream_spec (fst (fst r)) (snd r)) as [E|(E1 & E2 & E3)].
  - rewrite E. cbn [fst snd]. rewrite calls_after_teardown, Hl.
    rewrite created_app, destroyed_app. split; [|reflexivity].
    destruct (teardown_balance (fst (fst r))) as [-> ->]. lia.
  - rewrite E2. cbn [fst snd]. rewrite Hl. split; [|exact E1].
    revert Hb. unfold stream_count, has_stream. rewrite E1. lia.
Qed.

(** X16: over any sequence of host calls the object returns one chunk for
    each chunk it was given, of the same rate, channel count and layout,
    and keeps its record; on an engine that honours the frame limit of a
    read, the frames returned are at most four times the frames given. *)
Theorem host_run_chunk_for_chunk (this : dsp_speedy) (l : list host_call)
    (e : env) :
  let r := host_run this l e in
  m_config (fst (fst r)) = m_config this /\
  map chunk_format (snd (fst r)) = map chunk_format (chunks_in l) /\
  (read_within_max ->
   Forall (fun c => 0 <= get_sample_count c) (chunks_in l) ->
   total_frames (snd (fst r)) <= 4 * total_frames (chunks_in l)).
Proof.
  cbv zeta. destruct (host_run_spec l this e) as (H1 & H2 & H3 & _). auto.
Qed.

(** X17: an object constructed from a preset of another owner, from a blob
    shorter than 21 bytes, or from the default preset is transparent for
    its whole life: every chunk comes back as it went in and the engine is
    never called. *)
Theorem default_object_is_transparent (preset : dsp_preset)
    (l : list host_call) (e : env) :
  get_owner preset <> g_dsp_speedy_guid \/ get_data_size preset < preset_size \/
  preset = g_get_default_preset ->
  host_run (dsp_speedy_new preset) l e = ((dsp_speedy_new preset, chunks_in l), e).
Proof.
  intros Hp.
  assert (Hd : is_default (m_config (dsp_speedy_new preset)) = true).
  { cbn [m_config dsp_speedy_new].
    destruct Hp as [Hp|[Hp|Hp]].
    - rewrite parse_preset_fallback by (left; exact Hp). reflexivity.
    - rewrite parse_preset_fallback by (right; exact Hp). reflexivity.
    - subst preset. unfold g_get_default_preset.
      rewrite parse_preset_make_preset. reflexivity. }
  assert (Hfl : forall e0, flush (dsp_speedy_new preset) e0 = (dsp_speedy_new preset, e0))
    by (intros e0; rewrite flush_unfold; reflexivity).
  revert e. induction l as [|[chunk| |] rest IH]; intros e.
  - reflexivity.
  - rewrite host_run_chunk. cbv zeta.
    rewrite on_chunk_pass_default by exact Hd. cbn [fst snd].
    rewrite IH. reflexivity.
  - rewrite host_run_flush, Hfl. cbn [fst snd]. apply IH.
  - cbn [host_run chunks_in]. unfold bind at 1, on_endoftrack at 1, ret at 1.
    apply IH.
Qed.

(** ** Latency *)

(** X18: after a chunk of positive rate handled with a non-default record,
    [get_latency] is +0.0 exactly when the object holds no stream;
    otherwise it is the double 0.02 (0x3F947AE147AE147B), or with the
    nonlinear flag the double sum 0.02 + 0.12 (0x3FC1EB851EB851EB). *)
Theorem get_latency_after_on_chunk (this : dsp_speedy) (chunk : audio_chunk)
    (e : env) :
  is_default (m_config this) = false ->
  0 < get_srate chunk ->
  let this' := snd (fst (fst (on_chunk this chunk e))) in
  get_latency this' =
  match m_stream this' with
  | None => S754_zero false
  | Some _ =>
      if nonlinear_enabled (m_config this)
      then S754_finite false 5044031582654955 (-55)
      else S754_finite false 5764607523034235 (-58)
  end.
Proof.
  intros Hd Hrate. cbv zeta.
  destruct (on_chunk_spec this chunk e) as (_ & Hcfg & _ & _ & Hb & _).
  specialize (Hb Hd).
  set (this' := snd (fst (fst (on_chunk this chunk e)))) in *.
  unfold get_latency, has_stream. rewrite Hcfg.
  destruct (m_stream this') as [s|] eqn:Es.
  - assert (Hr : m_sample_rate this' = get_srate chunk).
    { assert (Hne : Some s <> None) by discriminate.
      specialize (Hb Hne). unfold bound_format, chunk_format in Hb. congruence. }
    rewrite Hr. apply Z.ltb_lt in Hrate. rewrite Hrate. cbn [andb].
    destruct (nonlinear_enabled (m_config this)); vm_compute; reflexivity.
  - rewrite andb_false_r. reflexivity.
Qed.

(** ** The samples handed back *)

Lemma read_short_world (s : sonicStream) (n : Z) (e : env) :
  the_world (snd (read_short s n e))
  = snd (sonicReadShortFromStream s n (the_world e)).
Proof.
  unfold read_short.
  destruct (sonicReadShortFromStream s n (the_world e)) as [r w]. reflexivity.
Qed.

Lemma drain_data_step (s : sonicStream) (max_samples total_read : Z) (e : env) :
  drain_data s max_samples total_read e =
  let '((samples_read, d), e') := read_short s (max_samples - total_read) e in
  if 0 <? samples_read then
    if max_samples <=? total_read + samples_read then d
    else d ++ drain_data s max_samples (total_read + samples_read) e'
  else [].
Proof.
  funelim (drain_data s max_samples total_read e).
  - rewrite e2, e1. reflexivity.
  - rewrite e2, Hpos, e1. reflexivity.
  - rewrite e2, Hpos, Hlt. reflexivity.
Qed.

(** The pointer arithmetic of the drain loop: with an engine that returns
    whole frames and a buffer of [max_samples] frames, the frames read so
    far are the start of the buffer, in the order of the reads. *)
Lemma drain_content (inv : world -> Prop) (s : sonicStream)
    (channels max_samples : Z) :
  read_whole_frames channels inv -> 0 < channels ->
  max_samples * channels < 2 ^ 32 ->
  forall (n : nat) (st : Z * list Z) (e : env),
  Z.to_nat (max_samples - fst st) = n ->
  inv (the_world e) -> 0 <= fst st <= max_samples ->
  Z.of_nat (length (snd st)) = max_samples * channels ->
  let r := drain s channels max_samples st e in
  let data := drain_data s max_samples (fst st) e in
  fst st <= fst (fst r) <= max_samples /\
  Z.of_nat (length data) = (fst (fst r) - fst st) * channels /\
  firstn (Z.to_nat (fst (fst r) * channels)) (snd (fst r))
  = firstn (Z.to_nat (fst st * channels)) (snd st) ++ data /\
  length (snd (fst r)) = length (snd st).
Proof.
  intros Hwf Hch Hsmall n. induction n as [n IH] using lt_wf_ind.
  intros [t buf] e Hn Hinv Ht Hlen. cbn [fst snd] in *.
  rewrite drain_step, drain_data_step. cbn [fst snd].
  pose proof (read_short_spec s (max_samples - t) e) as [_ Hr].
  pose proof (read_short_world s (max_samples - t) e) as Hw.
  destruct (Hwf s (max_samples - t) (the_world e) Hinv) as [Hinv' Hfr].
  rewrite <- Hw in Hinv'. rewrite <- Hr in Hfr. clear Hr Hw.
  destruct (read_short s (max_samples - t) e) as [[r d] e1].
  cbn [fst snd] in Hinv', Hfr.
  destruct (0 <? r) eqn:Hpos.
  - apply Z.ltb_lt in Hpos. destruct (Hfr Hpos) as [Hle Hd].
    assert (Htc : 0 <= t * channels) by nia.
    assert (Htc' : (t + r) * channels <= max_samples * channels) by nia.
    assert (Hoff : to_unsigned (t * channels) = t * channels)
      by (apply to_unsigned_small; nia).
    assert (Hfit : (Z.to_nat (t * channels) + length d <= length buf)%nat) by nia.
    assert (Hsplit : Z.to_nat ((t + r) * channels)
                     = (Z.to_nat (t * channels) + length d)%nat) by nia.
    assert (Hfirst : firstn (Z.to_nat ((t + r) * channels))
                            (store_at buf (to_unsigned (t * channels)) d)
                     = firstn (Z.to_nat (t * channels)) buf ++ d)
      by (rewrite Hoff, Hsplit; apply store_at_firstn; exact Hfit).
    assert (Hsame : length (store_at buf (to_unsigned (t * channels)) d) = length buf)
      by (rewrite Hoff; apply store_at_length; exact Hfit).
    cbv zeta. destruct (max_samples <=? t + r) eqn:Hfull.
    + cbn [fst snd]. split; [lia|]. split; [nia|]. split; assumption.
    + apply Z.leb_gt in Hfull.
      specialize (IH (Z.to_nat (max_samples - (t + r))) ltac:(lia)
                     (t + r, store_at buf (to_unsigned (t * channels)) d) e1
                     eq_refl Hinv' ltac:(cbn [fst]; lia)
                     ltac:(cbn [snd]; rewrite Hsame; exact Hlen)).
      cbv zeta in IH. cbn [fst snd] in IH.
      destruct IH as (Hb & Hl & Hf & Hs).
      split; [lia|]. split; [rewrite length_app; nia|].
      split; [rewrite Hf, Hfirst, <- app_assoc; reflexivity|].
      rewrite Hs. exact Hsame.
  - cbn [fst snd]. split; [lia|]. split; [cbn; lia|].
    split; [rewrite app_nil_r; reflexivity|reflexivity].
Qed.

(** X19: on a stream bound to the chunk's format and an engine that accepts
    the write and returns whole frames, [on_chunk] leaves in the chunk
    exactly the samples the reads returned, in the order of the reads,
    each divided by 32767, with the frame count that goes with them; when
    the reads return nothing the chunk is silence of the input's length. *)
Theorem on_chunk_output_samples (inv : world -> Prop) (this : dsp_speedy)
    (chunk : audio_chunk) (e : env) (s : sonicStream) (ok : Z) (e1 : env) :
  let sample_count := get_sample_count chunk in
  let channels := get_channels chunk in
  let inbuf :=
    map to_short (firstn (Z.to_nat (sample_count * channels)) (get_samples chunk)) in
  let chunk' := snd (fst (on_chunk this chunk e)) in
  let data := drain_data s (sample_count * 4) 0 e1 in
  is_default (m_config this) = false ->
  chunk_format chunk = bound_format this ->
  m_stream this = Some s ->
  write_short s inbuf (to_int sample_count) e = (ok, e1) -> ok <> 0 ->
  read_whole_frames channels inv -> inv (the_world e1) ->
  0 < channels -> 0 <= sample_count -> sample_count * 4 * channels < 2 ^ 31 ->
  match data with
  | [] =>
      get_samples chunk' = repeat audio_zero (Z.to_nat (sample_count * channels)) /\
      get_sample_count chunk' = sample_count
  | _ :: _ =>
      get_samples chunk' = map to_float data /\
      get_sample_count chunk' * channels = Z.of_nat (length data)
  end.
Proof.
  intros N ch inbuf chunk' data Hd Hfmt Hs Hw Hok Hwf Hinv Hch HN Hsmall.
  assert (HN4 : 0 <= N * 4 < 2 ^ 31) by (pow2; nia).
  assert (Hmax : to_int (N * 4) = N * 4) by (apply to_int_small; pow2; lia).
  subst chunk'. apply format_unchanged_iff in Hfmt.
  rewrite on_chunk_bound by assumption. rewrite Hs, process_unfold. cbv zeta.
  cbn [m_input_buffer with_input_buffer m_output_buffer m_audio_output
       with_output_buffer].
  fold N ch inbuf. rewrite Hw. apply Z.eqb_neq in Hok. rewrite Hok, Hmax.
  assert (Hcap : to_unsigned (N * 4 * ch) = N * 4 * ch)
    by (apply to_unsigned_small; pow2; nia).
  set (buf0 := resize 0 (to_unsigned (N * 4 * ch)) (m_output_buffer this)).
  assert (Hlen0 : Z.of_nat (length buf0) = N * 4 * ch)
    by (unfold buf0; rewrite resize_length, Hcap; nia).
  destruct (drain_content inv s ch (N * 4) Hwf Hch ltac:(pow2; lia)
              (Z.to_nat (N * 4 - 0)) (0, buf0) e1 eq_refl Hinv
              ltac:(cbn [fst]; lia) Hlen0) as (Hb & Hl & Hf & _).
  cbn [fst snd] in Hb, Hl, Hf. fold data in Hl, Hf.
  destruct (drain s ch (N * 4) (0, buf0) e1) as [[T out] e2].
  cbn [fst snd] in Hb, Hl, Hf.
  change (Z.to_nat (0 * ch)) with O in Hf. cbn [firstn app] in Hf.
  destruct (0 <? T) eqn:HT.
  - apply Z.ltb_lt in HT.
    assert (Hchs : to_int ch = ch) by (apply to_int_small; pow2; nia).
    assert (HTs : to_int (T * ch) = T * ch) by (apply to_int_small; pow2; nia).
    assert (HTu : to_unsigned (T * ch) = T * ch)
      by (apply to_unsigned_small; pow2; nia).
    rewrite Hchs, HTs, HTu, Hf.
    assert (Hdl : length (map to_float data) = Z.to_nat (T * ch))
      by (rewrite length_map; nia).
    rewrite store_at_all by (rewrite resize_length; exact Hdl).
    cbn [fst snd set_data get_samples get_sample_count].
    rewrite <- Hdl, firstn_all.
    destruct data as [|x data']; [cbn in Hl; nia|].
    split; [reflexivity|]. rewrite Hl. ring.
  - apply Z.ltb_ge in HT. assert (T = 0) by lia. subst T.
    destruct data as [|x data']; [|cbn in Hl; lia].
    cbn [fst snd set_data get_samples get_sample_count].
    rewrite firstn_repeat. split; reflexivity.
Qed.

End LifecycleFacts.

(** ** End of playback *)

Section EndOfPlaybackFacts.

Context {S : Sonic} {H : Host} {F : SonicFlush S}.

(** The reads of [flush_remaining], when they come to an end: every read
    asks for 4096 frames, and the last one is the only one that returns
    none. *)
Lemma flush_reads_spec (s : sonicStream) (fuel : nat) :
  forall (buf : list Z) (e : env) (buf' : list Z) (e' : env),
  flush_reads fuel s buf e = Some (buf', e') ->
  exists (rs : list Z) (r_last : Z),
    calls e' = calls e ++ map (ReadShort s 4096) (rs ++ [r_last]) /\
    Forall (fun r => 0 < r) rs /\ r_last <= 0.
Proof.
  induction fuel as [|fuel IH]; intros buf e buf' e' Hf; [discriminate|].
  cbn [flush_reads] in Hf.
  pose proof (read_short_spec s 4096 e) as [Hc _].
  destruct (read_short s 4096 e) as [[r d] e1]. cbn [fst snd] in Hc.
  destruct (0 <? r) eqn:Hpos.
  - apply IH in Hf. destruct Hf as (rs & r_last & Hl & Hrs & Hlast).
    exists (r :: rs), r_last. split.
    + rewrite Hl, Hc, <- app_assoc. reflexivity.
    + split; [|exact Hlast]. constructor; [apply Z.ltb_lt; exact Hpos|exact Hrs].
  - injection Hf as <- <-. exists [], r. split; [exact Hc|].
    split; [constructor|apply Z.ltb_ge; exact Hpos].
Qed.

(** X20: when [on_endofplayback] returns, the object still holds its
    stream, format and record: nothing is destroyed and no chunk is
    produced; only [m_output_buffer] has changed.  The engine saw one
    [sonicFlushStream], whose status is not looked at, and then reads of
    4096 frames, of which only the last returned no frame.  Without a
    stream nothing happens at all. *)
Theorem on_endofplayback_spec (fuel : nat) (this this' : dsp_speedy)
    (e e' : env) :
  on_endofplayback fuel this e = Some (this', e') ->
  match m_stream this with
  | None => this' = this /\ e' = e
  | Some s =>
      exists (buf : list Z) (rs : list Z) (r_last : Z),
        this' = with_output_buffer buf this /\
        calls e' =
          calls e ++
          FlushStream s (fst (sonicFlushStream s (the_world e)))
          :: map (ReadShort s 4096) (rs ++ [r_last]) /\
        Forall (fun r => 0 < r) rs /\ r_last <= 0
  end.
Proof.
  unfold on_endofplayback, flush_remaining. intros Hf.
  destruct (m_stream this) as [s|].
  - unfold flush_stream in Hf.
    destruct (sonicFlushStream s (the_world e)) as [r w].
    match type of Hf with context [flush_reads fuel s ?b ?e0] =>
      destruct (flush_reads fuel s b e0) as [[buf e1]|] eqn:Er end;
      [|discriminate].
    injection Hf as <- <-.
    apply flush_reads_spec in Er. destruct Er as (rs & r_last & Hl & Hrs & Hlast).
    cbn [calls fst] in Hl |- *. rewrite <- app_assoc in Hl.
    exists buf, rs, r_last. auto.
  - injection Hf as <- <-. auto.
Qed.

Lemma flush_reads_terminates (pending : world -> nat) (s : sonicStream) :
  (forall s w,
     0 < fst (fst (sonicReadShortFromStream s 4096 w)) ->
     (pending (snd (sonicReadShortFromStream s 4096 w)) < pending w)%nat) ->
  forall (n : nat) (buf : list Z) (e : env),
  (pending (the_world e) <= n)%nat ->
  exists res, forall fuel, (n < fuel)%nat -> flush_reads fuel s buf e = Some res.
Proof.
  intros Hdec. induction n as [|n IH]; intros buf e Hn.
  - pose proof (read_short_spec s 4096 e) as [_ Hr].
    pose proof (read_short_world s 4096 e) as Hw.
    destruct (read_short s 4096 e) as [[r d] e1] eqn:Er. cbn [fst snd] in Hr, Hw.
    destruct (0 <? r) eqn:Hpos.
    + exfalso. specialize (Hdec s (the_world e)). rewrite <- Hr in Hdec.
      cbn [fst] in Hdec. apply Z.ltb_lt in Hpos. specialize (Hdec Hpos). lia.
    + exists (store_at buf 0 d, e1). intros [|fuel] Hfuel; [lia|].
      cbn [flush_reads]. rewrite Er, Hpos. reflexivity.
  - pose proof (read_short_spec s 4096 e) as [_ Hr].
    pose proof (read_short_world s 4096 e) as Hw.
    destruct (read_short s 4096 e) as [[r d] e1] eqn:Er. cbn [fst snd] in Hr, Hw.
    destruct (0 <? r) eqn:Hpos.
    + specialize (Hdec s (the_world e)). rewrite <- Hr, <- Hw in Hdec.
      cbn [fst] in Hdec. apply Z.ltb_lt in Hpos. specialize (Hdec Hpos).
      destruct (IH (store_at buf 0 d) e1) as [res Hres]; [lia|].
      exists res. intros [|fuel] Hfuel; [lia|].
      cbn [flush_reads]. rewrite Er. apply Z.ltb_lt in Hpos. rewrite Hpos.
      apply Hres. lia.
    + exists (store_at buf 0 d, e1). intros [|fuel] Hfuel; [lia|].
      cbn [flush_reads]. rewrite Er, Hpos. reflexivity.
Qed.

(** X21: [on_endofplayback] returns, and with one result for every larger
    number of reads allowed, on an engine whose reads of 4096 frames use
    up something finite each time they return frames. *)
Theorem on_endofplayback_terminates (pending : world -> nat)
    (this : dsp_speedy) (e : env) :
  (forall s w,
     0 < fst (fst (sonicReadShortFromStream s 4096 w)) ->
     (pending (snd (sonicReadShortFromStream s 4096 w)) < pending w)%nat) ->
  exists (n : nat) (res : dsp_speedy * env),
    forall fuel, (n < fuel)%nat -> on_endofplayback fuel this e = Some res.
Proof.
  intros Hdec. unfold on_endofplayback, flush_remaining.
  destruct (m_stream this) as [s|].
  - unfold flush_stream.
    destruct (sonicFlushStream s (the_world e)) as [r w].
    set (buf := resize 0 _ _). set (e0 := mkEnv w _).
    destruct (flush_reads_terminates pending s Hdec (pending w) buf e0)
      as [[buf' e'] Hres]; [reflexivity|].
    exists (pending w), (with_output_buffer buf' this, e').
    intros fuel Hfuel. rewrite (Hres fuel Hfuel). reflexivity.
  - exists O, (this, e). reflexivity.
Qed.

(** X22: on an engine whose reads of 4096 frames always return frames, the
    loop of [flush_remaining] never ends once the object holds a stream:
    [on_endofplayback] has no result, however many reads are allowed. *)
Theorem on_endofplayback_never_returns (this : dsp_speedy) (s : sonicStream)
    (e : env) (fuel : nat) :
  (forall s w, 0 < fst (fst (sonicReadShortFromStream s 4096 w))) ->
  m_stream this = Some s ->
  on_endofplayback fuel this e = None.
Proof.
  intros Hpos Hs. unfold on_endofplayback, flush_remaining. rewrite Hs.
  unfold flush_stream. destruct (sonicFlushStream s (the_world e)) as [r w].
  set (buf := resize 0 _ _). set (e0 := mkEnv w _).
  assert (Hnone : forall fuel buf e, flush_reads fuel s buf e = None).
  { clear - Hpos. induction fuel as [|fuel IH]; intros buf e; [reflexivity|].
    cbn [flush_reads].
    pose proof (read_short_spec s 4096 e) as [_ Hr].
    destruct (read_short s 4096 e) as [[r d] e1]. cbn [fst] in Hr.
    specialize (Hpos s (the_world e)). rewrite <- Hr in Hpos. cbn [fst] in Hpos.
    apply Z.ltb_lt in Hpos. rewrite Hpos. apply IH. }
  rewrite Hnone. reflexivity.
Qed.

End EndOfPlaybackFacts.

(** The queue engine gives up part of its queue on every read that
    returns frames. *)
Lemma fifo_read_shrinks (s : unit) (w : Fifo.fifo) :
  0 < fst (fst (Fifo.read s 4096 w)) ->
  (length (Fifo.queue (snd (Fifo.read s 4096 w))) < length (Fifo.queue w))%nat.
Proof.
  unfold Fifo.read, Fifo.frames.
  destruct (Fifo.nch w <=? 0) eqn:En; [cbn; lia|].
  apply Z.leb_gt in En.
  destruct (Z.of_nat (length (Fifo.queue w)) / Fifo.nch w <? 2) eqn:Ef;
    [cbn; lia|].
  apply Z.ltb_ge in Ef. cbn [fst snd Fifo.queue]. intros Hpos.
  rewrite length_skipn.
  assert (0 < Z.of_nat (length (Fifo.queue w))).
  { destruct (length (Fifo.queue w)); [|lia].
    change (Z.of_nat 0) with 0 in Ef. rewrite Z.div_0_l in Ef; lia. }
  assert (0 < Z.max 0 (Z.min (Z.of_nat (length (Fifo.queue w)) / Fifo.nch w) 4096)
              * Fifo.nch w) by nia.
  lia.
Qed.

(** The queue engine returns whole frames while it holds one channel. *)
Lemma fifo_reads_whole_frames :
  @read_whole_frames Fifo.engine 1 (fun w => Fifo.nch w = 1).
Proof.
  intros s max_frames w Hinv. cbv zeta.
  change (@sonicReadShortFromStream Fifo.engine) with Fifo.read.
  unfold Fifo.read, Fifo.frames. rewrite Hinv. cbn [Z.leb Z.compare].
  rewrite Z.div_1_r.
  destruct (Z.of_nat (length (Fifo.queue w)) <? 2) eqn:Ef.
  - cbn [fst snd]. split; [exact Hinv|lia].
  - cbn [fst snd Fifo.nch]. split; [reflexivity|]. intros Hpos.
    split; [lia|]. rewrite length_firstn. lia.
Qed.

(** ** Runs on the small engines *)

Lemma on_chunk_never_fails_witness :
  snd (fst (on_chunk (Fifo.fresh Fifo.faster) Fifo.surround1 Fifo.start))
  = Fifo.surround1.
Proof.
  apply (on_chunk_never_fails (Fifo.fresh Fifo.faster) Fifo.surround1 Fifo.start).
  reflexivity.
Defined.

Lemma on_chunk_binds_chunk_format_witness :
  bound_format (snd (fst (fst (on_chunk (Fifo.fresh Fifo.faster) Fifo.mono2 Fifo.start))))
  = chunk_format Fifo.mono2.
Proof.
  apply (on_chunk_binds_chunk_format (Fifo.fresh Fifo.faster) Fifo.mono2 Fifo.start).
  - vm_compute. reflexivity.
  - intros E. vm_compute in E. discriminate E.
Defined.

(** The object after a six-channel chunk the engine refused: no stream,
    and the format of the mono chunk before it. *)
Lemma on_chunk_unbound_same_format_witness :
  let this :=
    snd (fst (fst (on_chunk Fifo.bound_mono Fifo.surround1 Fifo.after_mono))) in
  on_chunk this Fifo.mono2 Fifo.start = ((true, this, Fifo.mono2), Fifo.start).
Proof.
  intros this.
  apply (on_chunk_unbound_same_format this Fifo.mono2 Fifo.start).
  - reflexivity.
  - reflexivity.
Defined.

Lemma on_chunk_write_rejected_witness :
  let this := Deaf.fresh Fifo.faster in
  let this1 := snd (fst (check_format this Fifo.mono2 Deaf.start)) in
  let e1 := snd (check_format this Fifo.mono2 Deaf.start) in
  let inbuf := map to_short (get_samples Fifo.mono2) in
  let e2 := snd (@write_short Deaf.engine tt inbuf 2 e1) in
  on_chunk this Fifo.mono2 Deaf.start
    = ((true, with_input_buffer inbuf this1, Fifo.mono2), e2) /\
  calls e2 = calls e1 ++ [@WriteShort Deaf.engine tt 2 0].
Proof.
  intros this this1 e1 inbuf e2.
  apply (on_chunk_write_rejected this Fifo.mono2 Deaf.start this1 e1 tt e2).
  - vm_compute. reflexivity.
  - reflexivity.
  - reflexivity.
  - reflexivity.
Defined.

Lemma flush_forces_rebuild_witness :
  let this1 := fst (flush Fifo.bound_mono Fifo.after_mono) in
  let e1 := snd (flush Fifo.bound_mono Fifo.after_mono) in
  exists result l,
    calls (snd (on_chunk this1 Fifo.mono2 e1))
    = calls e1 ++ @CreateStream Fifo.engine 44100 1 result :: l.
Proof.
  apply (flush_forces_rebuild Fifo.bound_mono Fifo.mono2 Fifo.after_mono).
  - vm_compute. reflexivity.
  - intros E. vm_compute in E. discriminate E.
Defined.

Lemma host_run_chunk_for_chunk_witness :
  total_frames
    (snd (fst (host_run (Flood.fresh Fifo.faster)
                 [OnChunk Fifo.mono2; Flush; OnChunk Fifo.mono1] Flood.start)))
  <= 4 * total_frames [Fifo.mono2; Fifo.mono1].
Proof.
  apply (host_run_chunk_for_chunk (Flood.fresh Fifo.faster)
           [OnChunk Fifo.mono2; Flush; OnChunk Fifo.mono1] Flood.start).
  - apply flood_read_within_max.
  - repeat constructor; cbn; lia.
Defined.

Lemma default_object_is_transparent_witness :
  host_run (dsp_speedy_new (mkPreset g_dsp_speedy_guid [x01; x02]))
           [OnChunk Fifo.mono2; Flush; OnChunk Fifo.mono1] Fifo.start
  = ((dsp_speedy_new (mkPreset g_dsp_speedy_guid [x01; x02]),
      [Fifo.mono2; Fifo.mono1]), Fifo.start).
Proof.
  apply (default_object_is_transparent (mkPreset g_dsp_speedy_guid [x01; x02])
           [OnChunk Fifo.mono2; Flush; OnChunk Fifo.mono1] Fifo.start).
  right. left. reflexivity.
Defined.

Lemma get_latency_after_on_chunk_witness :
  get_latency (snd (fst (fst (on_chunk (Fifo.fresh Fifo.faster) Fifo.mono2 Fifo.start))))
  = S754_finite false 5764607523034235 (-58).
Proof.
  apply (get_latency_after_on_chunk (Fifo.fresh Fifo.faster) Fifo.mono2 Fifo.start).
  - vm_compute. reflexivity.
  - reflexivity.
Defined.

Lemma on_endofplayback_spec_witness :
  let this' :=
    with_output_buffer
      (store_at (resize 0 (to_unsigned (4096 * 1)) (m_output_buffer Fifo.bound_mono))
                0 [])
      Fifo.bound_mono in
  let e' :=
    snd (@read_short Fifo.engine tt 4096
           (snd (@flush_stream Fifo.engine fifo_flush tt Fifo.after_mono))) in
  exists (buf : list Z) (rs : list Z) (r_last : Z),
    this' = with_output_buffer buf Fifo.bound_mono /\
    calls e' =
      calls Fifo.after_mono ++
      @FlushStream Fifo.engine tt 1
      :: map (@ReadShort Fifo.engine tt 4096) (rs ++ [r_last]) /\
    Forall (fun r => 0 < r) rs /\ r_last <= 0.
Proof.
  intros this' e'.
  exact (@on_endofplayback_spec Fifo.engine Fifo.host fifo_flush 1 Fifo.bound_mono
           this' Fifo.after_mono e' eq_refl).
Defined.

Lemma on_endofplayback_terminates_witness :
  exists (n : nat) (res : dsp_speedy * env),
    forall fuel, (n < fuel)%nat ->
    on_endofplayback fuel Fifo.bound_mono Fifo.after_mono = Some res.
Proof.
  apply (@on_endofplayback_terminates Fifo.engine Fifo.host fifo_flush
           (fun w => length (Fifo.queue w))
           Fifo.bound_mono Fifo.after_mono).
  exact fifo_read_shrinks.
Defined.

Lemma on_endofplayback_never_returns_witness :
  on_endofplayback 5
    (snd (fst (fst (on_chunk (Flood.fresh Fifo.faster) Fifo.mono2 Flood.start))))
    (snd (on_chunk (Flood.fresh Fifo.faster) Fifo.mono2 Flood.start))
  = None.
Proof.
  apply (@on_endofplayback_never_returns Flood.engine Fifo.host flood_flush _ tt).
  - intros s w. reflexivity.
  - reflexivity.
Defined.

Lemma on_chunk_output_samples_witness :
  let inbuf := map to_short (get_samples Fifo.mono2) in
  let e1 := snd (@write_short Fifo.engine tt inbuf 2 Fifo.after_mono) in
  let chunk' := snd (fst (on_chunk Fifo.bound_mono Fifo.mono2 Fifo.after_mono)) in
  let data := @drain_data Fifo.engine tt 8 0 e1 in
  match data with
  | [] =>
      get_samples chunk' = repeat audio_zero (Z.to_nat 2) /\
      get_sample_count chunk' = 2
  | _ :: _ =>
      get_samples chunk' = map to_float data /\
      get_sample_count chunk' * 1 = Z.of_nat (length data)
  end.
Proof.
  intros inbuf e1.
  apply (@on_chunk_output_samples Fifo.engine Fifo.host
           (fun w => Fifo.nch w = 1)
           Fifo.bound_mono Fifo.mono2 Fifo.after_mono tt 1 e1).
  - vm_compute. reflexivity.
  - reflexivity.
  - reflexivity.
  - reflexivity.
  - discriminate.
  - exact fifo_reads_whole_frames.
  - reflexivity.
  - reflexivity.
  - discriminate.
  - reflexivity.
Defined.
